(** * AI chat exporter: conversation store and DOM extractor

    A shallow embedding of [scripts/storage-manager.js] (the conversation
    store over [chrome.storage.local]) and of the content script that
    defines [window.exportChatToMarkdown] (Markdown renderer, role
    classifier, conversation extractor), followed by the properties of the
    specification that were checked against them.

    Conventions of the embedding.
    - JavaScript values are the inductive [value]; objects are association
      lists in insertion order, as [JSON.stringify] sees them.
    - Numbers are the integral ones (epoch milliseconds, counts), as [Z].
    - Strings are [string], byte by byte in UTF-8; a JavaScript string is
      taken to be well formed (no lone surrogate) unless a cut by
      [substring] left one. Lengths and cuts are counted in UTF-16 code
      units ([js_length], [js_take]), the cut of the exported title apart
      ([clean_title]); white space is ECMAScript's; case mapping covers the
      letters A-Z and the two letters outside ASCII whose lower case holds
      an ASCII letter, and what is proved of a search is proved for text
      within ASCII.
    - Asynchronous store operations run one at a time; each is a function
      from the state of the world (backend contents, clock, random source)
      to an outcome and a new world. *)

From Stdlib Require Import ZArith QArith String Ascii.
From stdpp Require Import prelude strings pretty sorting gmap.

Local Set Warnings "-register-all".
Local Open Scope string_scope.

(** ** Values *)

Inductive value :=
| VUndefined
| VNull
| VBool (b : bool)
| VNum (n : Z)
| VStr (s : string)
| VArr (items : list value)
| VObj (fields : list (string * value)).

(** An object: its own enumerable properties, in insertion order. *)
Abbreviation obj := (list (string * value)).

Global Instance value_inhabited : Inhabited value := populate VUndefined.

(** [Boolean(v)]. *)
Definition truthy (v : value) : bool :=
  match v with
  | VUndefined | VNull => false
  | VBool b => b
  | VNum n => negb (n =? 0)%Z
  | VStr s => negb (String.eqb s "")
  | VArr _ | VObj _ => true
  end.

(** [a || b]. *)
Definition js_or (a b : value) : value := if truthy a then a else b.

Fixpoint lookup_field (k : string) (fields : obj) : option value :=
  match fields with
  | [] => None
  | (k', v) :: rest => if String.eqb k' k then Some v else lookup_field k rest
  end.

(** [o.k] on an object: [undefined] when the property is absent. *)
Definition get (o : obj) (k : string) : value :=
  default VUndefined (lookup_field k o).

(** [v.k] on a value that is neither [null] nor [undefined]; the named
    properties read by this program do not exist on primitives and arrays. *)
Definition prop (v : value) (k : string) : value :=
  match v with
  | VObj fields => get fields k
  | _ => VUndefined
  end.

Definition nullish (v : value) : bool :=
  match v with
  | VUndefined | VNull => true
  | _ => false
  end.

(** [o[k] = v]: an existing property keeps its position. *)
Fixpoint set_field (k : string) (v : value) (o : obj) : obj :=
  match o with
  | [] => [(k, v)]
  | (k', v') :: rest =>
      if String.eqb k' k then (k, v) :: rest else (k', v') :: set_field k v rest
  end.

(** Own enumerable properties copied by a spread [...v]. *)
Definition own_props (v : value) : obj :=
  match v with
  | VObj fields => fields
  | VArr items => imap (fun i x => (pretty i, x)) items
  | VStr s => imap (fun i c => (pretty i, VStr (String c ""))) (list_ascii_of_string s)
  | _ => []
  end.

(** [{...o, ...more}] continued: assign the properties of [more] onto [o]. *)
Definition assign (o more : obj) : obj :=
  foldl (fun acc kv => set_field kv.1 kv.2 acc) o more.

(** [a === b]. Arrays and objects are equal only to themselves, by
    reference; references are not modelled, so they compare unequal. The
    values this program compares are strings, numbers and booleans. *)
Definition strict_eq (a b : value) : bool :=
  match a, b with
  | VUndefined, VUndefined => true
  | VNull, VNull => true
  | VBool x, VBool y => Bool.eqb x y
  | VNum x, VNum y => (x =? y)%Z
  | VStr x, VStr y => String.eqb x y
  | _, _ => false
  end.

(** [arr.includes(x)]. *)
Definition includes (arr : list value) (x : value) : bool :=
  existsb (fun y => strict_eq y x) arr.

(** [Number(v)] for the operands of a subtraction; [None] is [NaN]. The
    numeric string grammar is not modelled: strings, arrays and objects
    count as [NaN]. *)
Definition to_number (v : value) : option Z :=
  match v with
  | VNum n => Some n
  | VNull => Some 0%Z
  | VBool b => Some (if b then 1 else 0)%Z
  | _ => None
  end.

(** ** Strings *)

Definition lower_char (c : ascii) : ascii :=
  let n := nat_of_ascii c in
  if (65 <=? n)%nat && (n <=? 90)%nat then ascii_of_nat (n + 32) else c.

(** The text as a regular expression with the flag [i] and an ASCII pattern
    compares it: the letters A-Z folded, every other character, the letters
    outside ASCII included, as it is. *)
Fixpoint fold_case (s : string) : string :=
  match s with
  | EmptyString => EmptyString
  | String c rest => String (lower_char c) (fold_case rest)
  end.

(** UTF-8 of a code point below U+10000. *)
Definition utf8 (point : N) : string :=
  if (point <? 128)%N then String (ascii_of_N point) ""
  else if (point <? 2048)%N then
    String (ascii_of_N (192 + point / 64)) (String (ascii_of_N (128 + point mod 64)) "")
  else
    String (ascii_of_N (224 + point / 4096))
      (String (ascii_of_N (128 + (point / 64) mod 64))
         (String (ascii_of_N (128 + point mod 64)) "")).

(** [s.toLowerCase()]. The letters A-Z are mapped; U+0130 becomes [i]
    followed by U+0307 and U+212A becomes [k], the two characters outside
    ASCII whose lower case holds an ASCII letter, and the first the only
    character whose lower case has another length. Every other character is
    left as it is: the lower case of a cased letter outside ASCII is not
    modelled. *)
Fixpoint toLowerCase (s : string) : string :=
  match s with
  | EmptyString => EmptyString
  | String a r1 =>
      let plain := String (lower_char a) (toLowerCase r1) in
      match r1 with
      | EmptyString => plain
      | String b r2 =>
          if String.eqb (String a (String b "")) (utf8 304)
          then "i" +:+ utf8 775 +:+ toLowerCase r2
          else
            match r2 with
            | EmptyString => plain
            | String c r3 =>
                if String.eqb (String a (String b (String c ""))) (utf8 8490)
                then String "k" (toLowerCase r3)
                else plain
            end
      end
  end.

(** [s.startsWith(p)]. *)
Fixpoint startsWith (s p : string) {struct p} : bool :=
  match p with
  | EmptyString => true
  | String a p' =>
      match s with
      | EmptyString => false
      | String b s' => Ascii.eqb a b && startsWith s' p'
      end
  end.

(** [hay.includes(needle)]. *)
Fixpoint str_includes (hay needle : string) : bool :=
  startsWith hay needle ||
  match hay with
  | EmptyString => false
  | String _ rest => str_includes rest needle
  end.

(** *** Code units *)

(** The UTF-16 code units a byte of UTF-8 stands for: a character below
    U+10000 is one code unit and starts with a byte below 128 or from 192
    to 239, a character from U+10000 on is a surrogate pair and starts with
    a byte from 240 on; the bytes from 128 to 191 continue a character. *)
Definition code_units (c : ascii) : nat :=
  let n := nat_of_ascii c in
  if (n <? 128)%nat then 1
  else if (n <? 192)%nat then 0
  else if (n <? 240)%nat then 1
  else 2.

(** [s.length]. *)
Fixpoint js_length (s : string) : nat :=
  match s with
  | EmptyString => 0
  | String c rest => code_units c + js_length rest
  end.

(** The first half of the surrogate pair of the character that starts with
    the byte [a], [rest] holding its three other bytes. *)
Definition high_surrogate (a : ascii) (rest : string) : string :=
  match rest with
  | String b (String c (String d _)) =>
      let point :=
        ((N_of_ascii a - 240) * 262144 + (N_of_ascii b - 128) * 4096
         + (N_of_ascii c - 128) * 64 + (N_of_ascii d - 128))%N in
      utf8 (55296 + (point - 65536) / 1024)
  | _ => EmptyString
  end.

(** [s.substring(0, n)]: the first [n] code units. A cut inside a surrogate
    pair leaves its first half. *)
Fixpoint js_take (n : nat) (s : string) : string :=
  match s with
  | EmptyString => EmptyString
  | String c rest =>
      match code_units c, n with
      | 0, _ => String c (js_take n rest)
      | 1, S n' => String c (js_take n' rest)
      | 2, S (S n') => String c (js_take n' rest)
      | 2, 1 => high_surrogate c rest
      | _, _ => EmptyString
      end
  end.

(** *** White space *)

(** The ASCII white space: tab, line feed, vertical tab, form feed, carriage
    return, space. *)
Definition is_js_space (c : ascii) : bool :=
  let n := nat_of_ascii c in
  ((9 <=? n)%nat && (n <=? 13)%nat) || (n =? 32)%nat.

(** The white space and line terminators of ECMAScript, which [trim]
    removes: the ASCII ones, U+00A0, U+1680, U+2000 to U+200A, U+2028,
    U+2029, U+202F, U+205F, U+3000, U+FEFF. *)
Definition white_space_points : list N :=
  [ 9; 10; 11; 12; 13; 32; 160; 5760;
    8192; 8193; 8194; 8195; 8196; 8197; 8198; 8199; 8200; 8201; 8202;
    8232; 8233; 8239; 8287; 12288; 65279 ]%N.

Definition is_white_space (character : string) : bool :=
  existsb (String.eqb character) (map utf8 white_space_points).

(** [s.trimStart()]: a white-space character takes one, two or three bytes. *)
Fixpoint trim_start (s : string) : string :=
  match s with
  | EmptyString => EmptyString
  | String a r1 =>
      if is_white_space (String a "") then trim_start r1
      else
        match r1 with
        | EmptyString => s
        | String b r2 =>
            if is_white_space (String a (String b "")) then trim_start r2
            else
              match r2 with
              | EmptyString => s
              | String c r3 =>
                  if is_white_space (String a (String b (String c ""))) then trim_start r3
                  else s
              end
        end
  end.

(** Nothing but white space. *)
Definition blank (s : string) : bool := String.eqb (trim_start s) "".

(** [s.trimEnd()]: the string up to the first place from which it is blank. *)
Fixpoint trim_end (s : string) : string :=
  match s with
  | EmptyString => EmptyString
  | String c rest => if blank s then EmptyString else String c (trim_end rest)
  end.

(** [s.trim()]. *)
Definition trim (s : string) : string := trim_end (trim_start s).


Fixpoint str_concat (parts : list string) : string :=
  match parts with
  | [] => ""
  | p :: rest => p +:+ str_concat rest
  end.

(** [parts.join(",")]. *)
Fixpoint join_comma (parts : list string) : string :=
  match parts with
  | [] => ""
  | [p] => p
  | p :: rest => p +:+ "," +:+ join_comma rest
  end.

(** [String(v)], as a template literal applies it. *)
Fixpoint to_display (v : value) : string :=
  match v with
  | VUndefined => "undefined"
  | VNull => "null"
  | VBool b => if b then "true" else "false"
  | VNum n => pretty n
  | VStr s => s
  | VArr items =>
      join_comma (map (fun x => if nullish x then "" else to_display x) items)
  | VObj _ => "[object Object]"
  end.

(** ** [JSON.stringify] *)

Definition dquote : ascii := ascii_of_nat 34.

Definition hex_digit (n : nat) : ascii :=
  if (n <? 10)%nat then ascii_of_nat (48 + n) else ascii_of_nat (87 + n).

(** One character of a quoted JSON string. *)
Definition json_escape (c : ascii) : string :=
  let n := nat_of_ascii c in
  if (n =? 34)%nat then String "\" (String dquote "")
  else if (n =? 92)%nat then "\\"
  else if (n =? 8)%nat then "\b"
  else if (n =? 9)%nat then "\t"
  else if (n =? 10)%nat then "\n"
  else if (n =? 12)%nat then "\f"
  else if (n =? 13)%nat then "\r"
  else if (n <? 32)%nat then
    "\u00" +:+ String (hex_digit (n / 16)) (String (hex_digit (n mod 16)) "")
  else String c "".

Fixpoint json_escape_all (s : string) : string :=
  match s with
  | EmptyString => EmptyString
  | String c rest => json_escape c +:+ json_escape_all rest
  end.

Definition json_quote (s : string) : string :=
  String dquote (json_escape_all s) +:+ String dquote "".

(** [JSON.stringify(v)]; [None] where JavaScript yields [undefined]. An
    [undefined] array element prints as [null], an [undefined] property is
    left out. *)
Fixpoint json_stringify (v : value) : option string :=
  match v with
  | VUndefined => None
  | VNull => Some "null"
  | VBool b => Some (if b then "true" else "false")
  | VNum n => Some (pretty n)
  | VStr s => Some (json_quote s)
  | VArr items =>
      Some ("[" +:+ join_comma (map (fun x => default "null" (json_stringify x)) items) +:+ "]")
  | VObj fields =>
      Some ("{" +:+
            join_comma
              (omap (fun kv => match json_stringify kv.2 with
                               | Some s => Some (json_quote kv.1 +:+ ":" +:+ s)
                               | None => None
                               end) fields) +:+ "}")
  end.


(** ** The world: backend, clock, random source *)

(** What a rejected promise or a [throw] carries. *)
Inductive exn :=
| Error (message : string)        (* [new Error(message)] *)
| TypeError (message : string)    (* property read on [null] or [undefined] *)
| SyntaxError (message : string)  (* [JSON.parse] on text that is not JSON *)
| BackendFailure.                 (* [chrome.storage.local] rejected the call *)

Definition message_of (e : exn) : string :=
  match e with
  | Error m | TypeError m | SyntaxError m => m
  | BackendFailure => "storage failure"
  end.

Inductive outcome (A : Type) :=
| Ok (a : A)
| Throw (e : exn).
Arguments Ok {A} a.
Arguments Throw {A} e.

(** [chrome.storage.local] holds two keys. [slot_conversations] is the value
    under [STORAGE_KEY], [None] while the key was never set. Every
    [Date.now()] and [Math.random()] consumes one entry of its source. *)
Record world := World {
  slot_conversations : option (list obj);
  slot_settings : option obj;
  get_fails : bool;
  set_fails : bool;
  set_calls : nat;
  clock : nat -> Z;
  clock_reads : nat;
  random : nat -> string;
  random_reads : nat;
  location_href : string
}.

Definition M (A : Type) : Type := world -> outcome A * world.

Definition ret {A} (a : A) : M A := fun w => (Ok a, w).

Definition throw {A} (e : exn) : M A := fun w => (Throw e, w).

Definition bind {A B} (m : M A) (k : A -> M B) : M B :=
  fun w =>
    match m w with
    | (Ok a, w') => k a w'
    | (Throw e, w') => (Throw e, w')
    end.

(** [try { m } catch (error) { h error }]. *)
Definition try_catch {A} (m : M A) (h : exn -> M A) : M A :=
  fun w =>
    match m w with
    | (Ok a, w') => (Ok a, w')
    | (Throw e, w') => h e w'
    end.

Declare Scope js_scope.
Delimit Scope js_scope with js.
Notation "'let!' x ':=' m 'in' k" := (bind m (fun x => k))
  (at level 10, x pattern, m at level 100, k at level 200) : js_scope.
Notation "m ';;!' k" := (bind m (fun _ => k))
  (at level 100, k at level 200, right associativity) : js_scope.
Local Open Scope js_scope.

(** [Date.now()]. *)
Definition date_now : M Z :=
  fun w => (Ok (clock w (clock_reads w)),
            World (slot_conversations w) (slot_settings w) (get_fails w) (set_fails w)
                  (set_calls w) (clock w) (S (clock_reads w)) (random w) (random_reads w)
                  (location_href w)).

(** [Math.random().toString(36).substr(2, 9)]: the digits come from the
    random source. *)
Definition random_suffix : M string :=
  fun w => (Ok (random w (random_reads w)),
            World (slot_conversations w) (slot_settings w) (get_fails w) (set_fails w)
                  (set_calls w) (clock w) (clock_reads w) (random w) (S (random_reads w))
                  (location_href w)).

(** [window.location.href]. *)
Definition window_location_href : M string := fun w => (Ok (location_href w), w).

(** [await chrome.storage.local.get(STORAGE_KEY)], then [result[STORAGE_KEY]]. *)
Definition storage_get_conversations : M (option (list obj)) :=
  fun w => if get_fails w then (Throw BackendFailure, w) else (Ok (slot_conversations w), w).

(** [await chrome.storage.local.set({ [STORAGE_KEY]: conversations })]. *)
Definition storage_set_conversations (conversations : list obj) : M unit :=
  fun w =>
    let attempted sl :=
      World sl (slot_settings w) (get_fails w) (set_fails w) (S (set_calls w))
            (clock w) (clock_reads w) (random w) (random_reads w) (location_href w) in
    if set_fails w then (Throw BackendFailure, attempted (slot_conversations w))
    else (Ok tt, attempted (Some conversations)).

(** ** The conversation store *)

Definition MAX_STORAGE_SIZE : Z := 5 * 1024 * 1024.

(** [generateId]. *)
Definition generateId : M string :=
  let! now := date_now in
  let! suffix := random_suffix in
  ret ("conv_" +:+ pretty now +:+ "_" +:+ suffix).

(** [getAllConversations]: a failed read is logged and yields the empty list. *)
Definition getAllConversations : M (list obj) :=
  try_catch
    (let! result := storage_get_conversations in
     ret (default [] result))
    (fun _ => ret []).

(** [arr.find(p)]. *)
Definition array_find {A} (p : A -> bool) (arr : list A) : option A := List.find p arr.

(** [arr.findIndex(p)]; [None] is -1. *)
Fixpoint findIndex {A} (p : A -> bool) (arr : list A) : option nat :=
  match arr with
  | [] => None
  | x :: rest => if p x then Some 0%nat else S <$> findIndex p rest
  end.

(** [getConversation]; [None] is [undefined]. *)
Definition getConversation (id : value) : M (option obj) :=
  let! conversations := getAllConversations in
  ret (array_find (fun conv => strict_eq (get conv "id") id) conversations).

(** The comparator [(a, b) => b.timestamp - a.timestamp]; [NaN] counts as 0,
    as [Array.prototype.sort] takes it. *)
Definition by_timestamp_desc (a b : obj) : Z :=
  match to_number (get b "timestamp"), to_number (get a "timestamp") with
  | Some x, Some y => (x - y)%Z
  | _, _ => 0%Z
  end.

(** [arr.sort(cmp)]: the stable sort, by insertion from the right. An element
    goes before the first one it does not compare greater than. Where the
    comparator orders the elements, this is the one order a stable sort
    gives; where it does not (a timestamp that is [NaN]) the engine's order
    is its own, and what is proved of the order is proved for timestamps
    that are numbers. *)
Fixpoint sort_insert (cmp : obj -> obj -> Z) (x : obj) (sorted : list obj) : list obj :=
  match sorted with
  | [] => [x]
  | y :: rest => if (cmp x y <=? 0)%Z then x :: sorted else y :: sort_insert cmp x rest
  end.

Definition array_sort (cmp : obj -> obj -> Z) (arr : list obj) : list obj :=
  foldr (sort_insert cmp) [] arr.

(** [usagePercent > 90] for [usagePercent = (size / MAX_STORAGE_SIZE) * 100].
    Two sizes differ by a whole number, far more than the rounding of the
    two floating-point operations, so the test agrees with the exact one. *)
Definition usage_above_90 (size : nat) : bool :=
  (90 * MAX_STORAGE_SIZE <? Z.of_nat size * 100)%Z.

(** [Math.ceil(n * 0.1)]. The double nearest 0.1 exceeds it by a factor of
    2^-54, less than half a unit in the last place of the product, so the
    product is exact at multiples of ten and the ceiling is that of n/10. *)
Definition ceil_tenth (n : nat) : nat := (n + 9) / 10.

(** [arr.slice(-k)]: the last [k] elements, the whole array when [k] is 0. *)
Definition slice_last {A} (k : nat) (arr : list A) : list A :=
  if (k =? 0)%nat then arr else drop (length arr - k) arr.

(** [JSON.stringify(conversations).length]. *)
Definition serialized_size (conversations : list obj) : nat :=
  js_length (default "" (json_stringify (VArr (map VObj conversations)))).

(** [checkAndCleanupStorage]. The sort mutates the caller's array; the filter
    builds a new one. The first component is the argument array as the call
    leaves it, the second the array returned. *)
Definition checkAndCleanupStorage (conversations : list obj) : list obj * list obj :=
  let size := serialized_size conversations in
  if usage_above_90 size then
    let conversations := array_sort by_timestamp_desc conversations in
    let nonFavorites := List.filter (fun c => negb (truthy (get c "isFavorite"))) conversations in
    if (0 <? length nonFavorites)%nat then
      let toRemove := ceil_tenth (length nonFavorites) in
      let toDelete := map (fun c => get c "id") (slice_last toRemove nonFavorites) in
      (conversations,
       List.filter (fun c => negb (includes toDelete (get c "id"))) conversations)
    else (conversations, conversations)
  else (conversations, conversations).

(** [saveConversation]. The value of [checkAndCleanupStorage] is awaited and
    dropped; [conversations] still names the pushed-to, possibly sorted
    array, and that array is written. *)
Definition saveConversation (conversationData : value) : M obj :=
  try_catch
    (let! conversations := getAllConversations in
     let! id := generateId in
     if nullish conversationData then throw (TypeError "Cannot read properties") else
     let! timestamp := date_now in
     let! href := window_location_href in
     let conversation : obj :=
       [ ("id", VStr id);
         ("title", js_or (prop conversationData "title") (VStr "Untitled Conversation"));
         ("content", js_or (prop conversationData "content") (VStr ""));
         ("provider", js_or (prop conversationData "provider") (VStr "unknown"));
         ("timestamp", VNum timestamp);
         ("url", js_or (prop conversationData "url") (VStr href));
         ("conversationId", js_or (prop conversationData "conversationId") (VStr ""));
         ("tags", js_or (prop conversationData "tags") (VArr []));
         ("isFavorite", js_or (prop conversationData "isFavorite") (VBool false));
         ("notes", js_or (prop conversationData "notes") (VStr ""));
         ("messageCount", js_or (prop conversationData "messageCount") (VNum 0)) ] in
     let conversations := (conversations ++ [conversation])%list in
     let '(conversations, _) := checkAndCleanupStorage conversations in
     storage_set_conversations conversations ;;!
     ret conversation)
    (fun error => throw error).

(** [updateConversation]. *)
Definition updateConversation (id : value) (updates : value) : M obj :=
  try_catch
    (let! conversations := getAllConversations in
     match findIndex (fun conv => strict_eq (get conv "id") id) conversations with
     | None => throw (Error ("Conversation " +:+ to_display id +:+ " not found"))
     | Some index =>
         let existing := default [] (conversations !! index) in
         let! now := date_now in
         let merged :=
           set_field "modifiedAt" (VNum now)
             (set_field "id" id (assign existing (own_props updates))) in
         let conversations := <[index := merged]> conversations in
         storage_set_conversations conversations ;;!
         ret merged
     end)
    (fun error => throw error).

(** [deleteConversation]. *)
Definition deleteConversation (id : value) : M bool :=
  try_catch
    (let! conversations := getAllConversations in
     let filtered := List.filter (fun conv => negb (strict_eq (get conv "id") id)) conversations in
     storage_set_conversations filtered ;;!
     ret true)
    (fun error => throw error).

(** [findDuplicate]; [None] is [null] or [undefined]. *)
Definition findDuplicate (conversationId : value) : M (option obj) :=
  if negb (truthy conversationId) then ret None else
  let! conversations := getAllConversations in
  ret (array_find (fun conv => strict_eq (get conv "conversationId") conversationId)
                  conversations).

(** *** Search *)

(** A predicate that may throw: [None] is a [TypeError] (a method called on
    a value that does not have it). *)
Definition or_else (a b : option bool) : option bool :=
  match a with
  | Some true => Some true
  | Some false => b
  | None => None
  end.

(** [v.toLowerCase().includes(q)]. *)
Definition lower_includes (v : value) (q : string) : option bool :=
  match v with
  | VStr s => Some (str_includes (toLowerCase s) q)
  | _ => None
  end.

(** [arr.some(p)] for a predicate that may throw. *)
Fixpoint some_m {A} (p : A -> option bool) (arr : list A) : option bool :=
  match arr with
  | [] => Some false
  | x :: rest => or_else (p x) (some_m p rest)
  end.

(** [arr.filter(p)] for a predicate that may throw. *)
Fixpoint filter_m {A} (p : A -> option bool) (arr : list A) : option (list A) :=
  match arr with
  | [] => Some []
  | x :: rest =>
      match p x with
      | None => None
      | Some keep =>
          match filter_m p rest with
          | None => None
          | Some rest' => Some (if keep then x :: rest' else rest')
          end
      end
  end.

Definition matches_query (lowerQuery : string) (conv : obj) : option bool :=
  or_else (lower_includes (get conv "title") lowerQuery)
   (or_else (lower_includes (get conv "content") lowerQuery)
     (or_else (lower_includes (get conv "notes") lowerQuery)
       match get conv "tags" with
       | VArr tags => some_m (fun tag => lower_includes tag lowerQuery) tags
       | _ => None
       end)).

(** [a >= b] and [a <= b] on numbers; a comparison with [NaN] is false. *)
Definition js_ge (a b : value) : bool :=
  match to_number a, to_number b with
  | Some x, Some y => (y <=? x)%Z
  | _, _ => false
  end.

Definition js_le (a b : value) : bool :=
  match to_number a, to_number b with
  | Some x, Some y => (x <=? y)%Z
  | _, _ => false
  end.

(** [filters.tags.some(tag => conv.tags.includes(tag))]. *)
Definition has_any_tag (wanted : list value) (conv : obj) : option bool :=
  match get conv "tags" with
  | VArr tags => Some (existsb (fun tag => includes tags tag) wanted)
  | VStr s => Some (existsb (fun tag => str_includes s (to_display tag)) wanted)
  | _ => match wanted with [] => Some false | _ => None end
  end.

Definition when_some {A} (o : option A) : M A :=
  match o with
  | Some a => ret a
  | None => throw (TypeError "not a function")
  end.

(** [searchConversations]. [results] aliases the array just read from the
    backend or a filtered copy; sorting it touches nothing else. *)
Definition searchConversations (query : string) (filters : obj) : M (list obj) :=
  let! conversations := getAllConversations in
  let results := conversations in
  let! results :=
    if truthy (VStr query) && truthy (VStr (trim query)) then
      when_some (filter_m (matches_query (toLowerCase query)) results)
    else ret results in
  let results :=
    if truthy (get filters "provider") then
      List.filter (fun conv => strict_eq (get conv "provider") (get filters "provider")) results
    else results in
  let results :=
    if negb (strict_eq (get filters "isFavorite") VUndefined) then
      List.filter (fun conv => strict_eq (get conv "isFavorite") (get filters "isFavorite")) results
    else results in
  let results :=
    if truthy (get filters "startDate") then
      List.filter (fun conv => js_ge (get conv "timestamp") (get filters "startDate")) results
    else results in
  let results :=
    if truthy (get filters "endDate") then
      List.filter (fun conv => js_le (get conv "timestamp") (get filters "endDate")) results
    else results in
  let! results :=
    match get filters "tags" with
    | VArr [] => ret results
    | VArr wanted => when_some (filter_m (has_any_tag wanted) results)
    | VStr s => if String.eqb s "" then ret results
                else match results with [] => ret results | _ => when_some None end
    | VObj tags =>
        match to_number (get tags "length"), results with
        | Some n, _ :: _ => if (0 <? n)%Z then when_some None else ret results
        | _, _ => ret results
        end
    | _ => ret results
    end in
  ret (array_sort by_timestamp_desc results).

(** *** Import *)

Record import_results := ImportResults {
  imported : nat;
  skipped : nat;
  updated : nat;
  errors : list (value * string)   (* [{conversation: title, error: message}] *)
}.

(** One turn of the loop of [importData] over [data.conversations]. Reading a
    property of a [null] record throws; the handler reads [convData.title]
    and throws again there, out of the loop. *)
Definition import_one (mergeStrategy : string) (results : import_results)
    (convData : value) : M import_results :=
  try_catch
    (if nullish convData then throw (TypeError "Cannot read properties") else
     let! duplicate := findDuplicate (prop convData "conversationId") in
     let insert :=
       saveConversation convData ;;!
       ret (ImportResults (S (imported results)) (skipped results) (updated results)
                          (errors results)) in
     match duplicate with
     | Some dup =>
         if String.eqb mergeStrategy "skip" then
           ret (ImportResults (imported results) (S (skipped results)) (updated results)
                              (errors results))
         else if String.eqb mergeStrategy "update" then
           updateConversation (get dup "id") convData ;;!
           ret (ImportResults (imported results) (skipped results) (S (updated results))
                              (errors results))
         else insert
     | None => insert
     end)
    (fun error =>
       if nullish convData then throw (TypeError "Cannot read properties") else
       ret (ImportResults (imported results) (skipped results) (updated results)
                          (errors results ++ [(prop convData "title", message_of error)])%list)).

Fixpoint import_all (mergeStrategy : string) (results : import_results)
    (records : list value) : M import_results :=
  match records with
  | [] => ret results
  | convData :: rest =>
      let! results := import_one mergeStrategy results convData in
      import_all mergeStrategy results rest
  end.

(** [importData]. *)
Definition importData (data : value) (mergeStrategy : string) : M import_results :=
  try_catch
    (match (if truthy data then prop data "conversations" else VUndefined) with
     | VArr records =>
         let! existingConversations := getAllConversations in
         import_all mergeStrategy (ImportResults 0 0 0 []) records
     | _ => throw (Error "Invalid import data format")
     end)
    (fun error => throw error).

(** What the history page was handed by the file input. *)
Inductive chosen_file :=
| NoFile                       (* [e.target.files[0]] is undefined *)
| NotJson (message : string)   (* [JSON.parse(text)] throws *)
| Parsed (data : value).

(** What [handleImport] leaves the user with. *)
Inductive import_report :=
| NothingChosen
| ImportFailed (error : exn)          (* [showError(`Import failed: ...`)] *)
| ImportDeclined                      (* the first [confirm] was cancelled *)
| ImportDone (results : import_results).

(** [handleImport] of [history/history.js]. [confirmImport] and
    [confirmUpdate] are the answers to its two [confirm] dialogs. After a
    completed import the page reloads its list, which only reads. *)
Definition handleImport (file : chosen_file) (confirmImport confirmUpdate : bool)
    : M import_report :=
  match file with
  | NoFile => ret NothingChosen
  | NotJson message => ret (ImportFailed (SyntaxError message))
  | Parsed data =>
      try_catch
        (if nullish data then throw (TypeError "Cannot read properties") else
         if negb (truthy (prop data "version")) then
           throw (Error "Invalid export file: missing version field") else
         match prop data "conversations" with
         | VArr records =>
             if negb confirmImport then ret ImportDeclined else
             let mergeStrategy := if confirmUpdate then "update" else "skip" in
             let! results := importData data mergeStrategy in
             let! reloaded := getAllConversations in
             ret (ImportDone results)
         | _ => throw (Error "Invalid export file: conversations must be an array")
         end)
        (fun error => ret (ImportFailed error))
  end.

(** ** Vocabulary of the properties *)

(** The list [getAllConversations] hands to the operations. *)
Definition visible (w : world) : list obj :=
  if get_fails w then [] else default [] (slot_conversations w).

(** The world after a write of [conversations] was attempted. *)
Definition written (conversations : option (list obj)) (ticks draws : nat) (w : world) : world :=
  World conversations (slot_settings w) (get_fails w) (set_fails w) (S (set_calls w))
        (clock w) (ticks + clock_reads w) (random w) (draws + random_reads w)
        (location_href w).

(** The id [generateId] builds in world [w]. *)
Definition next_id (w : world) : string :=
  "conv_" +:+ pretty (clock w (clock_reads w)) +:+ "_" +:+ random w (random_reads w).

(** The record [saveConversation] builds for [data] in world [w]. *)
Definition new_record (data : value) (w : world) : obj :=
  [ ("id", VStr (next_id w));
    ("title", js_or (prop data "title") (VStr "Untitled Conversation"));
    ("content", js_or (prop data "content") (VStr ""));
    ("provider", js_or (prop data "provider") (VStr "unknown"));
    ("timestamp", VNum (clock w (S (clock_reads w))));
    ("url", js_or (prop data "url") (VStr (location_href w)));
    ("conversationId", js_or (prop data "conversationId") (VStr ""));
    ("tags", js_or (prop data "tags") (VArr []));
    ("isFavorite", js_or (prop data "isFavorite") (VBool false));
    ("notes", js_or (prop data "notes") (VStr ""));
    ("messageCount", js_or (prop data "messageCount") (VNum 0)) ].

(** The array [saveConversation] writes. *)
Definition save_payload (data : value) (w : world) : list obj :=
  (checkAndCleanupStorage (visible w ++ [new_record data w])%list).1.

(** The number a record's [timestamp] stands for; [None] when it is [NaN]. *)
Definition timestamp_of (c : obj) : option Z := to_number (get c "timestamp").

Definition dated (c : obj) : Prop := is_Some (timestamp_of c).

(** [a] carries a timestamp at least as recent as that of [b]. *)
Definition not_older (a b : obj) : Prop :=
  exists x y, timestamp_of a = Some x /\ timestamp_of b = Some y /\ (y <= x)%Z.

(** The fields of a stored conversation, in the order of the literal. *)
Definition conversation_fields : list string :=
  ["id"; "title"; "content"; "provider"; "timestamp"; "url"; "conversationId";
   "tags"; "isFavorite"; "notes"; "messageCount"].

(** The fields [saveConversation] copies from its argument. *)
Definition copied_fields : list string :=
  ["title"; "content"; "provider"; "url"; "conversationId";
   "tags"; "isFavorite"; "notes"; "messageCount"].

(** The value a copied field falls back to. *)
Definition default_of (w : world) (k : string) : value :=
  if String.eqb k "title" then VStr "Untitled Conversation"
  else if String.eqb k "provider" then VStr "unknown"
  else if String.eqb k "url" then VStr (location_href w)
  else if String.eqb k "tags" then VArr []
  else if String.eqb k "isFavorite" then VBool false
  else if String.eqb k "messageCount" then VNum 0
  else VStr "".

(** How [JSON.stringify] prints an array element and an object property. *)
Definition print_item (x : value) : string := default "null" (json_stringify x).

Definition print_field (kv : string * value) : option string :=
  match json_stringify kv.2 with
  | Some s => Some (json_quote kv.1 +:+ ":" +:+ s)
  | None => None
  end.

(** The input and the record read back agree on every field that the store
    does not assign. *)
Definition agrees_except_assigned (found : obj) (data : value) : Prop :=
  forall k, k <> "id" -> k <> "timestamp" -> get found k = prop data k.

(** [Array.isArray(v)]. *)
Definition is_array (v : value) : bool :=
  match v with
  | VArr _ => true
  | _ => false
  end.

(** The errors a malformed import bundle is refused with. *)
Definition invalid_format (e : exn) : Prop :=
  e = Error "Invalid export file: missing version field" \/
  e = Error "Invalid export file: conversations must be an array" \/
  e = Error "Invalid import data format".

(** * The content script: DOM, Markdown renderer, role classifier *)

(** ** The DOM *)

(** What the rendering engine knows about an element: the text it shows
    and the left edge of its bounding box ([None] when
    [getBoundingClientRect] throws). *)
Record layout := Layout {
  innerText : string;
  rect_left : option Q
}.

(** The interface an element implements. Only an [HTMLElement] has the
    property [innerText]; on an [SVGElement] the property [className] is an
    [SVGAnimatedString], not a string. [OtherElement] stands for the rest,
    MathML elements for one. *)
Inductive interface := HTMLElement | SVGElement | OtherElement.

Inductive node :=
| Text (data : string)
| Comment (data : string)
| Element (kind : interface) (tagName : string) (attributes : list (string * string))
          (rendered : layout) (shadowRoot : option (list node)) (childNodes : list node).

Definition is_element (n : node) : bool :=
  match n with
  | Element _ _ _ _ _ _ => true
  | _ => false
  end.

(** [el.tagName.toLowerCase()]. *)
Definition tag_of (n : node) : string :=
  match n with
  | Element _ tag _ _ _ _ => toLowerCase tag
  | _ => ""
  end.

Definition attributes_of (n : node) : list (string * string) :=
  match n with
  | Element _ _ attrs _ _ _ => attrs
  | _ => []
  end.

Definition layout_of (n : node) : layout :=
  match n with
  | Element _ _ _ rendered _ _ => rendered
  | _ => Layout "" None
  end.

(** [el.innerText]; [None] is [undefined]. *)
Definition inner_text (n : node) : option string :=
  match n with
  | Element HTMLElement _ _ rendered _ _ => Some (innerText rendered)
  | _ => None
  end.

(** [el.className] is an object, not a string. *)
Definition animated_className (n : node) : bool :=
  match n with
  | Element SVGElement _ _ _ _ _ => true
  | _ => false
  end.

Definition children_of (n : node) : list node :=
  match n with
  | Element _ _ _ _ _ children => children
  | _ => []
  end.

(** [el.getAttribute(name)]; [None] is [null]. *)
Fixpoint getAttribute_in (attrs : list (string * string)) (name : string) : option string :=
  match attrs with
  | [] => None
  | (k, v) :: rest => if String.eqb k name then Some v else getAttribute_in rest name
  end.

Definition getAttribute (n : node) (name : string) : option string :=
  getAttribute_in (attributes_of n) name.

Definition hasAttribute (n : node) (name : string) : bool :=
  bool_decide (is_Some (getAttribute n name)).

(** [el.className] where it is a string: the class attribute. *)
Definition className (n : node) : string := default "" (getAttribute n "class").

Definition is_html_space (c : ascii) : bool :=
  let n := nat_of_ascii c in
  (n =? 9)%nat || (n =? 10)%nat || (n =? 12)%nat || (n =? 13)%nat || (n =? 32)%nat.

(** The tokens of a class attribute: [current] collects the token being read. *)
Fixpoint tokens_from (current : string) (s : string) : list string :=
  match s with
  | EmptyString => if String.eqb current "" then [] else [current]
  | String c rest =>
      if is_html_space c then
        (if String.eqb current "" then [] else [current]) ++ tokens_from "" rest
      else tokens_from (current +:+ String c "") rest
  end%list.

(** [el.classList.contains(token)]. *)
Definition classList_contains (n : node) (token : string) : bool :=
  existsb (String.eqb token) (tokens_from "" (className n)).

(** [node.textContent]. *)
Fixpoint textContent (n : node) : string :=
  match n with
  | Text data => data
  | Comment _ => ""
  | Element _ _ _ _ _ children => str_concat (map textContent children)
  end.

(** The first element, in document order, among [n] and its descendants
    that satisfies [p]. *)
Fixpoint first_match (p : node -> bool) (n : node) : option node :=
  match n with
  | Element _ _ _ _ _ children =>
      if p n then Some n else
      (fix among (cs : list node) : option node :=
         match cs with
         | [] => None
         | c :: rest =>
             match first_match p c with
             | Some found => Some found
             | None => among rest
             end
         end) children
  | _ => None
  end.

(** [el.querySelector(selector)], the selector given as a predicate. *)
Fixpoint querySelector_among (p : node -> bool) (cs : list node) : option node :=
  match cs with
  | [] => None
  | c :: rest =>
      match first_match p c with
      | Some found => Some found
      | None => querySelector_among p rest
      end
  end.

Definition querySelector (p : node -> bool) (n : node) : option node :=
  querySelector_among p (children_of n).

(** ** Markdown renderer *)

Definition is_word_char (c : ascii) : bool :=
  let n := nat_of_ascii c in
  ((48 <=? n)%nat && (n <=? 57)%nat) || ((65 <=? n)%nat && (n <=? 90)%nat) ||
  ((97 <=? n)%nat && (n <=? 122)%nat) || (n =? 95)%nat.

(** The longest run of word characters a string starts with. *)
Fixpoint word_run (s : string) : string :=
  match s with
  | EmptyString => EmptyString
  | String c rest => if is_word_char c then String c (word_run rest) else EmptyString
  end.

(** [s.substring(n)]. *)
Fixpoint str_drop (n : nat) (s : string) : string :=
  match n, s with
  | O, _ => s
  | S n', EmptyString => EmptyString
  | S n', String _ rest => str_drop n' rest
  end.

(** [cls.match(/language-(\w+)/)?.[1] || '']: at the leftmost place where
    [language-] is followed by a word character, the run of word characters
    there. *)
Fixpoint language_of (cls : string) : string :=
  match cls with
  | EmptyString => EmptyString
  | String _ rest =>
      if startsWith cls "language-" && negb (String.eqb (word_run (str_drop 9 cls)) "")
      then word_run (str_drop 9 cls)
      else language_of rest
  end.

Definition noise_tags : list string :=
  ["script"; "style"; "nav"; "header"; "footer"; "button"].

(** The filter at the head of [extractMarkdownFromElement]. *)
Definition is_noise (n : node) : bool :=
  classList_contains n "sr-only" || hasAttribute n "aria-hidden" ||
  existsb (String.eqb (tag_of n)) noise_tags.

Definition newline : string := String (ascii_of_nat 10) "".

Definition fence : string := "```".

(** The selector [code]. *)
Definition is_code (n : node) : bool := String.eqb (tag_of n) "code".

(** The fenced block a [pre] element renders to. The [code] element is
    taken to have a string for its [className]: the HTML parser never puts
    a [code] element into SVG content. *)
Definition fenced_block (pre : node) : string :=
  let code := querySelector is_code pre in
  let lang := match code with Some c => language_of (className c) | None => "" end in
  newline +:+ fence +:+ lang +:+ newline +:+ textContent (default pre code) +:+ newline
  +:+ fence +:+ newline +:+ newline.

(** The lines a list renders to: [Array.from(node.children).forEach((li, i) => ...)].
    [i] counts the element children; [cs] are the child nodes left. *)
Definition list_items (render : node -> string) (ordered : bool)
    : list node -> nat -> string :=
  fix items (cs : list node) (i : nat) : string :=
    match cs with
    | [] => ""
    | c :: rest =>
        if is_element c then
          (if String.eqb (tag_of c) "li" then
             (if ordered then pretty (S i) +:+ ". " else "- ")
             +:+ trim (render c) +:+ newline
           else "") +:+ items rest (S i)
        else items rest i
    end.

(** [extractMarkdownFromElement]; [getChildrenMarkdown] is the
    concatenation over [childNodes]. *)
Fixpoint extractMarkdownFromElement (n : node) : string :=
  match n with
  | Text data => data
  | Comment _ => ""
  | Element _ _ _ _ _ children =>
      let tagName := tag_of n in
      let getChildrenMarkdown := str_concat (map extractMarkdownFromElement children) in
      if is_noise n then ""
      else if String.eqb tagName "pre" then fenced_block n
      else if String.eqb tagName "code" then " `" +:+ textContent n +:+ "` "
      else if String.eqb tagName "strong" || String.eqb tagName "b" then
        "**" +:+ getChildrenMarkdown +:+ "**"
      else if String.eqb tagName "em" || String.eqb tagName "i" then
        "*" +:+ getChildrenMarkdown +:+ "*"
      else if String.eqb tagName "a" then
        "[" +:+ trim (textContent n) +:+ "](" +:+ default "" (getAttribute n "href") +:+ ")"
      else if String.eqb tagName "ul" || String.eqb tagName "ol" then
        newline +:+
        list_items extractMarkdownFromElement (String.eqb tagName "ol") children 0
        +:+ newline
      else if String.eqb tagName "p" then trim getChildrenMarkdown +:+ newline +:+ newline
      else if String.eqb tagName "br" then newline
      else getChildrenMarkdown
  end.

(** ** Elements in their place *)

(** An element as the script holds it: the node, its preceding siblings
    (nearest first) and its parent element ([None] for a child of the
    document or of a shadow root). *)
Inductive loc :=
| Loc (self : node) (preceding : list node) (parent : option loc).

Definition self_of (el : loc) : node := match el with Loc self _ _ => self end.

Definition preceding_of (el : loc) : list node := match el with Loc _ preceding _ => preceding end.

(** [el.parentElement]. *)
Definition parentElement (el : loc) : option loc := match el with Loc _ _ parent => parent end.

(** [el.previousElementSibling]. *)
Fixpoint previous_element (parent : option loc) (preceding : list node) : option loc :=
  match preceding with
  | [] => None
  | n :: rest => if is_element n then Some (Loc n rest parent) else previous_element parent rest
  end.

Definition previousElementSibling (el : loc) : option loc :=
  previous_element (parentElement el) (preceding_of el).

(** [el.closest(tag)]: the element or its nearest ancestor bearing the tag. *)
Fixpoint closest (tag : string) (el : loc) : option loc :=
  match el with
  | Loc self _ parent =>
      if String.eqb (tag_of self) tag then Some el
      else match parent with
           | Some up => closest tag up
           | None => None
           end
  end.

(** [root.querySelectorAll('*')] over the children [nodes] of [parent]: the
    elements below, in document order. [preceding] holds the siblings
    already passed. *)
Fixpoint elements_under (parent : option loc) (preceding : list node) (n : node) : list loc :=
  match n with
  | Element _ _ _ _ _ children =>
      let me := Loc n preceding parent in
      me ::
      (fix walk (passed : list node) (cs : list node) : list loc :=
         match cs with
         | [] => []
         | c :: rest => elements_under (Some me) passed c ++ walk (c :: passed) rest
         end%list) [] children
  | _ => []
  end.

Fixpoint querySelectorAll_from (parent : option loc) (passed : list node) (nodes : list node)
    : list loc :=
  match nodes with
  | [] => []
  | c :: rest =>
      (elements_under parent passed c ++ querySelectorAll_from parent (c :: passed) rest)%list
  end.

Definition querySelectorAll (root : list node) : list loc := querySelectorAll_from None [] root.

(** The elements [getDeepElements] appends for the shadow roots at and below
    [n], hosts in document order, each shadow tree with its own nested
    shadow roots after it. *)
Fixpoint shadow_elements (n : node) : list loc :=
  match n with
  | Element _ _ _ _ shadow children =>
      (match shadow with
       | Some inner =>
           querySelectorAll inner ++ concat (map shadow_elements inner)
       | None => []
       end ++ concat (map shadow_elements children))%list
  | _ => []
  end.

(** [getDeepElements(root)], the root given by its child nodes. *)
Definition getDeepElements (root : list node) : list loc :=
  (querySelectorAll root ++ concat (map shadow_elements root))%list.

(** ** Errors of the content script *)

(** The script runs on the page without a backend: an operation returns a
    value or throws. *)
Global Instance outcome_ret : MRet outcome := @Ok.

Global Instance outcome_bind : MBind outcome :=
  fun A B k r =>
    match r with
    | Ok a => k a
    | Throw e => Throw e
    end.

(** The error of a method call on a value that has no such method, and of a
    property read on [undefined]. *)
Definition not_a_function : exn := TypeError "is not a function".

Definition no_properties : exn := TypeError "Cannot read properties of undefined".

(** [arr.filter(p)] for a predicate that may throw. *)
Fixpoint filter_by {A} (p : A -> outcome bool) (arr : list A) : outcome (list A) :=
  match arr with
  | [] => Ok []
  | x :: rest =>
      keep ← p x;
      kept ← filter_by p rest;
      Ok (if keep : bool then x :: kept else kept)
  end.

(** [arr.forEach((x, i) => { ... messages.push(...) })] from index [i] on:
    what the calls push, in order, unless one of them throws. *)
Fixpoint for_each {A B} (f : nat -> A -> outcome (list B)) (i : nat) (arr : list A)
    : outcome (list B) :=
  match arr with
  | [] => Ok []
  | x :: rest =>
      pushed ← f i x;
      later ← for_each f (S i) rest;
      Ok (pushed ++ later)%list
  end.

(** ** Role classifier *)

Inductive role := User | Assistant.

Definition role_name (r : role) : string :=
  match r with
  | User => "User"
  | Assistant => "Assistant"
  end.

(** [pattern.test(s)] for a pattern that is an alternation of literals. *)
Definition matches_any (alternatives : list string) (s : string) : bool :=
  existsb (str_includes s) alternatives.

(** [rect.left > window.innerWidth * 0.5]. *)
Definition past_midpoint (edge : Q) (innerWidth : Z) : bool :=
  negb (Qle_bool edge (inject_Z innerWidth * (1 # 2))).

(** [a || b] on attribute values: [null] and the empty string are falsy. *)
Definition attr_or (a b : option string) : option string :=
  match a with
  | Some s => if String.eqb s "" then b else a
  | None => b
  end.

Definition attr_truthy (a : option string) : bool :=
  match a with
  | Some s => negb (String.eqb s "")
  | None => false
  end.

(** [detectRole]; [innerWidth] is [window.innerWidth]. Past the second
    tier the text of the element is read before any test is made: on an
    element without [innerText] the call throws. The keywords are in ASCII
    or have no case, so that the lower case of the letters [toLowerCase]
    leaves alone plays no part in the tests, nor in the place of the cut. *)
Definition detectRole (innerWidth : Z) (el : loc) (index : nat) : outcome role :=
  let self := self_of el in
  if String.eqb (tag_of self) "user-query" || bool_decide (is_Some (closest "user-query" el))
  then Ok User
  else if String.eqb (tag_of self) "model-response"
          || bool_decide (is_Some (closest "model-response" el))
  then Ok Assistant
  else
    let roleAttr :=
      attr_or (getAttribute self "data-message-author-role") (getAttribute self "data-role") in
    if attr_truthy roleAttr then
      Ok (if bool_decide (roleAttr = Some "user") then User else Assistant)
    else
      let aria := toLowerCase (default "" (attr_or (getAttribute self "aria-label") (Some ""))) in
      match inner_text self with
      | None => Throw no_properties
      | Some shown =>
          let text := js_take 50 (toLowerCase shown) in
          Ok (if matches_any ["you"; "user"; "你"; "用户"; "提问"] aria
                 || matches_any ["you"; "user"; "你"] text then User
              else if matches_any ["gemini"; "assistant"; "ai"; "模型"; "助手"; "回答"] aria
                      || matches_any ["gemini"; "assistant"; "ai"] text then Assistant
              else if match rect_left (layout_of self) with
                      | Some edge => past_midpoint edge innerWidth
                      | None => false
                      end then User
              else if Nat.even index then User else Assistant)
      end.

(** ** Conversation extractor *)

Record message := Message {
  message_role : role;
  message_content : string
}.

(** The filter of step 2 of [exportChatToMarkdown]. The tests run from left
    to right; the first that reads [cls.includes] throws on an element
    whose [className] is not a string. *)
Definition is_block (el : loc) : outcome bool :=
  let self := self_of el in
  let tag := tag_of self in
  let testid := default "" (attr_or (getAttribute self "data-testid") (Some "")) in
  let cls := className self in
  if String.eqb tag "message-content" ||
     String.eqb tag "user-query" ||
     String.eqb tag "model-response" ||
     startsWith testid "conversation-turn-"
  then Ok true
  else if animated_className self then Throw not_a_function
  else Ok (str_includes cls "ds-message" ||
           str_includes cls "message" ||
           str_includes cls "chat-turn" ||
           str_includes cls "conversation-turn" ||
           hasAttribute self "data-test-render-count" ||
           hasAttribute self "data-message-author-role").

(** The selector list of step 3: [.markdown, .prose, .ds-markdown,
    .query-content, .model-response-text, [class*=message-content]]. *)
Definition content_selector (n : node) : bool :=
  classList_contains n "markdown" ||
  classList_contains n "prose" ||
  classList_contains n "ds-markdown" ||
  classList_contains n "query-content" ||
  classList_contains n "model-response-text" ||
  match getAttribute n "class" with
  | Some cls => str_includes cls "message-content"
  | None => false
  end.

(** What block [el] at position [i] pushes in step 3. The role is computed
    first. *)
Definition block_messages (innerWidth : Z) (i : nat) (el : loc) : outcome (list message) :=
  role ← detectRole innerWidth el i;
  let contentEl := default (self_of el) (querySelector content_selector (self_of el)) in
  let content := trim (extractMarkdownFromElement contentEl) in
  Ok (if negb (String.eqb content "") && (2 <? js_length content)%nat
      then [Message role content] else []).

(** Steps 2 and 3: the list [messages] after the primary scan. *)
Definition primary_messages (innerWidth : Z) (all : list loc) : outcome (list message) :=
  blocks ← filter_by is_block all;
  for_each (block_messages innerWidth) 0 blocks.

(** The filter of step 4. *)
Definition is_answer_container (el : loc) : bool :=
  classList_contains (self_of el) "markdown" ||
  classList_contains (self_of el) "prose" ||
  classList_contains (self_of el) "ds-markdown".

(** [prev.innerText.length < 5]. *)
Definition short_text (n : node) : outcome bool :=
  match inner_text n with
  | Some shown => Ok (js_length shown <? 5)%nat
  | None => Throw no_properties
  end.

(** [while (prev && prev.innerText.length < 5) prev = prev.previousElementSibling]
    once [prev] has moved to the siblings held in [preceding]. *)
Fixpoint skip_short_siblings (parent : option loc) (preceding : list node)
    : outcome (option loc) :=
  match preceding with
  | [] => Ok None
  | n :: rest =>
      if is_element n then
        short ← short_text n;
        if short : bool then skip_short_siblings parent rest
        else Ok (Some (Loc n rest parent))
      else skip_short_siblings parent rest
  end.

(** The same loop from its start. *)
Definition skip_short (prev : option loc) : outcome (option loc) :=
  match prev with
  | None => Ok None
  | Some (Loc self preceding parent) =>
      short ← short_text self;
      if short : bool then skip_short_siblings parent preceding else Ok prev
  end.

(** What the container [ai] pushes in step 4. *)
Definition container_messages (ai : loc) : outcome (list message) :=
  prev ← skip_short (parentElement ai);
  userText ←
    match prev with
    | Some p =>
        match inner_text (self_of p) with
        | Some shown => Ok (trim shown)
        | None => Throw no_properties
        end
    | None => Ok ""
    end;
  Ok ((if negb (String.eqb userText "") then [Message User userText] else []) ++
      [Message Assistant (trim (extractMarkdownFromElement (self_of ai)))])%list.

Definition fallback_messages (all : list loc) : outcome (list message) :=
  for_each (fun _ => container_messages) 0 (List.filter is_answer_container all).

(** Steps 2 to 4: the list [messages] before deduplication. *)
Definition collect_messages (innerWidth : Z) (all : list loc) : outcome (list message) :=
  messages ← primary_messages innerWidth all;
  if (length messages =? 0)%nat then fallback_messages all else Ok messages.

Definition message_key (m : message) : string :=
  role_name (message_role m) +:+ ":" +:+ js_take 100 (message_content m).

(** Step 5: the first message of each key, in order. *)
Fixpoint deduplicate (seen : gset string) (messages : list message) : list message :=
  match messages with
  | [] => []
  | m :: rest =>
      if bool_decide (message_key m ∈ seen) then deduplicate seen rest
      else m :: deduplicate ({[message_key m]} ∪ seen) rest
  end.

(** The message list of [exportChatToMarkdown], steps 2 to 5: [None] where
    the function returns [null]. The title of step 1 is read before and
    takes no part in it. *)
Definition exported_messages (innerWidth : Z) (root : list node)
    : outcome (option (list message)) :=
  let all := getDeepElements root in
  messages ← collect_messages innerWidth all;
  let final := deduplicate ∅ messages in
  Ok (if (length final =? 0)%nat then None else Some final).



(** The tag names from an element up to its root: the element first. *)
Fixpoint tags_upward (el : loc) : list string :=
  match el with
  | Loc self _ parent =>
      tag_of self :: match parent with
                     | Some up => tags_upward up
                     | None => []
                     end
  end.

(** What there is to see of an element for [detectRole]: its tag and those
    of its ancestors, its attributes, its text, its geometry. *)
Record observation := Observation {
  seen_tags : list string;
  seen_attributes : list (string * string);
  seen_text : option string;
  seen_left : option Q
}.

Definition observe (el : loc) : observation :=
  Observation (tags_upward el) (attributes_of (self_of el))
              (inner_text (self_of el)) (rect_left (layout_of (self_of el))).

(** ** Vocabulary of the renderer's properties *)

(** [needle] occurs in [hay]. *)
Definition str_contains (hay needle : string) : Prop :=
  exists before after, hay = before +:+ needle +:+ after.

(** The fence of a code block tagged [lang] around [body], without the blank
    lines around it. *)
Definition code_fence (lang body : string) : string :=
  fence +:+ lang +:+ newline +:+ body +:+ newline +:+ fence.

(** Tags whose rendering does not go through the rendering of the children. *)
Definition opaque_tags : list string := ["pre"; "code"; "a"; "ul"; "ol"; "br"].

Definition has_tag (tags : list string) (n : node) : bool :=
  existsb (String.eqb (tag_of n)) tags.

(** [target] is [n] or lies below it along elements that the renderer goes
    through: none is noise, none has an opaque tag, and under a list the
    path continues in a list item. *)
Inductive rendered_through (target : node) : node -> Prop :=
| rendered_here : rendered_through target target
| rendered_child n c :
    is_element n = true -> is_noise n = false -> has_tag opaque_tags n = false ->
    c ∈ children_of n -> rendered_through target c ->
    rendered_through target n
| rendered_item n c :
    is_element n = true -> is_noise n = false -> has_tag ["ul"; "ol"] n = true ->
    c ∈ children_of n -> tag_of c = "li" -> rendered_through target c ->
    rendered_through target n.

(** A character of ASCII that is not white space: no white-space character
    holds its byte. *)
Definition solid (c : ascii) : bool :=
  (nat_of_ascii c <? 128)%nat && negb (is_js_space c).

(** A string that starts, or ends, with such a character. *)
Definition starts_solid (s : string) : Prop :=
  match s with
  | EmptyString => False
  | String c _ => solid c = true
  end.

Fixpoint ends_solid (s : string) : Prop :=
  match s with
  | EmptyString => False
  | String c EmptyString => solid c = true
  | String _ rest => ends_solid rest
  end.

(** * More of the conversation store *)

(** [ids.includes(x)] where [ids] is whatever the caller passed: an array, a
    string (substring test on [String(x)]), or a value without the method
    ([None]: the call throws). *)
Definition ids_include (ids : value) (x : value) : option bool :=
  match ids with
  | VArr items => Some (includes items x)
  | VStr s => Some (str_includes s (to_display x))
  | _ => None
  end.

(** [deleteConversations]. The filter callback throws on the first record
    when [ids] has no [includes]; the log line after the write reads
    [ids.length], which throws when [ids] is [null] or [undefined]. *)
Definition deleteConversations (ids : value) : M bool :=
  try_catch
    (let! conversations := getAllConversations in
     let! filtered :=
       when_some (filter_m (fun conv => negb <$> ids_include ids (get conv "id"))
                           conversations) in
     storage_set_conversations filtered ;;!
     if nullish ids then throw (TypeError "Cannot read properties") else
     ret true)
    (fun error => throw error).

(** [clearAllConversations]. *)
Definition clearAllConversations : M bool :=
  try_catch
    (storage_set_conversations [] ;;! ret true)
    (fun error => throw error).

(** *** Settings *)

Definition DEFAULT_SETTINGS : obj :=
  [ ("autoSave", VBool false);
    ("exportFormat", VStr "markdown");
    ("maxConversations", VNum 200) ].

(** [await chrome.storage.local.get(SETTINGS_KEY)], then [result[SETTINGS_KEY]]. *)
Definition storage_get_settings : M (option obj) :=
  fun w => if get_fails w then (Throw BackendFailure, w) else (Ok (slot_settings w), w).

(** [await chrome.storage.local.set({ [SETTINGS_KEY]: settings })]. *)
Definition storage_set_settings (settings : obj) : M unit :=
  fun w =>
    let attempted sl :=
      World (slot_conversations w) sl (get_fails w) (set_fails w) (S (set_calls w))
            (clock w) (clock_reads w) (random w) (random_reads w) (location_href w) in
    if set_fails w then (Throw BackendFailure, attempted (slot_settings w))
    else (Ok tt, attempted (Some settings)).

(** [getSettings]: a failed read is logged and yields the defaults. *)
Definition getSettings : M obj :=
  try_catch
    (let! result := storage_get_settings in
     ret (assign DEFAULT_SETTINGS (default [] result)))
    (fun _ => ret DEFAULT_SETTINGS).

(** [saveSettings]. *)
Definition saveSettings (settings : value) : M bool :=
  try_catch
    (storage_set_settings (assign DEFAULT_SETTINGS (own_props settings)) ;;! ret true)
    (fun error => throw error).

(** *** Tags *)

(** [set.add(x)] on a [Set] kept in insertion order. *)
Definition set_add (x : value) (members : list value) : list value :=
  if includes members x then members else (members ++ [x])%list.

(** The comparison of [Array.prototype.sort] without a comparator:
    [undefined] goes last, anything else is ordered by its string. [true]
    when [a] need not move behind [b]. *)
Definition default_order (a b : value) : bool :=
  match a, b with
  | _, VUndefined => true
  | VUndefined, _ => false
  | _, _ => String.leb (to_display a) (to_display b)
  end.

(** The stable sort again, for any elements and order. *)
Fixpoint insert_by {A} (before : A -> A -> bool) (x : A) (sorted : list A) : list A :=
  match sorted with
  | [] => [x]
  | y :: rest => if before x y then x :: sorted else y :: insert_by before x rest
  end.

Definition sort_by {A} (before : A -> A -> bool) (arr : list A) : list A :=
  foldr (insert_by before) [] arr.

(** [conv.tags.forEach(tag => tags.add(tag))] over the conversations; [None]
    when some [tags] is not an array. *)
Fixpoint collect_tags (members : list value) (conversations : list obj)
    : option (list value) :=
  match conversations with
  | [] => Some members
  | conv :: rest =>
      match get conv "tags" with
      | VArr tags => collect_tags (foldl (fun acc tag => set_add tag acc) members tags) rest
      | _ => None
      end
  end.

(** [getAllTags]. *)
Definition getAllTags : M (list value) :=
  let! conversations := getAllConversations in
  let! tags := when_some (collect_tags [] conversations) in
  ret (sort_by default_order tags).

(** ** Vocabulary of the further properties *)

(** The test [conv.id === id] the store looks records up with. *)
Definition has_id (id : value) (conv : obj) : bool := strict_eq (get conv "id") id.

(** Run the operations one after the other, stopping at the first that
    throws. *)
Fixpoint each {A} (operations : list (M A)) : M unit :=
  match operations with
  | [] => ret tt
  | operation :: rest => operation ;;! each rest
  end.

(** The records an import result accounts for. *)
Definition accounted (results : import_results) : nat :=
  imported results + skipped results + updated results + length (errors results).



Definition is_number (v : value) : bool :=
  match v with
  | VNum _ => true
  | _ => false
  end.

(** Every character of [s] satisfies [p]. *)
Fixpoint str_all (p : ascii -> bool) (s : string) : bool :=
  match s with
  | EmptyString => true
  | String c rest => p c && str_all p rest
  end.

(** Text within ASCII, where the lower case of the embedding is that of the
    engine. *)
Definition ascii_text (s : string) : bool := str_all (fun c => (nat_of_ascii c <? 128)%nat) s.

(** The values a query is looked up in: title, content, notes and the
    tags. *)
Definition searched (conv : obj) : list value :=
  [get conv "title"; get conv "content"; get conv "notes"] ++
  match get conv "tags" with VArr tags => tags | _ => [] end.

(** [query] occurs in one of them, the case of the letters A-Z aside. *)
Definition text_matches (query : string) (conv : obj) : Prop :=
  exists s, VStr s ∈ searched conv /\ str_includes (fold_case s) (fold_case query) = true.

(** A conversation whose searched strings are within ASCII. *)
Definition ascii_record (conv : obj) : bool :=
  forallb (fun v => match v with VStr s => ascii_text s | _ => true end) (searched conv).

(** A date filter that is a number or not set. *)
Definition date_filter (v : value) : bool := is_number v || negb (truthy v).

(** The criteria a search applies to a conversation: the query when it is
    not blank, and each filter that is set. *)
Definition meets_criteria (query : string) (filters : obj) (conv : obj) : Prop :=
  (trim query <> "" -> text_matches query conv) /\
  (truthy (get filters "provider") = true ->
   strict_eq (get conv "provider") (get filters "provider") = true) /\
  (strict_eq (get filters "isFavorite") VUndefined = false ->
   strict_eq (get conv "isFavorite") (get filters "isFavorite") = true) /\
  (forall d t, get filters "startDate" = VNum d -> d <> 0%Z ->
               get conv "timestamp" = VNum t -> (d <= t)%Z) /\
  (forall d t, get filters "endDate" = VNum d -> d <> 0%Z ->
               get conv "timestamp" = VNum t -> (t <= d)%Z) /\
  (forall wanted, get filters "tags" = VArr wanted -> wanted <> [] ->
                  has_any_tag wanted conv = Some true).

(** The stages of [searchConversations] on the list read; [None] where the
    stage throws. *)
Definition query_stage (query : string) (results : list obj) : option (list obj) :=
  if truthy (VStr query) && truthy (VStr (trim query))
  then filter_m (matches_query (toLowerCase query)) results
  else Some results.

Definition plain_filters (filters : obj) (results : list obj) : list obj :=
  let results :=
    if truthy (get filters "provider") then
      List.filter (fun conv => strict_eq (get conv "provider") (get filters "provider")) results
    else results in
  let results :=
    if negb (strict_eq (get filters "isFavorite") VUndefined) then
      List.filter (fun conv => strict_eq (get conv "isFavorite") (get filters "isFavorite")) results
    else results in
  let results :=
    if truthy (get filters "startDate") then
      List.filter (fun conv => js_ge (get conv "timestamp") (get filters "startDate")) results
    else results in
  if truthy (get filters "endDate") then
    List.filter (fun conv => js_le (get conv "timestamp") (get filters "endDate")) results
  else results.

Definition tags_stage (filters : obj) (results : list obj) : option (list obj) :=
  match get filters "tags" with
  | VArr [] => Some results
  | VArr wanted => filter_m (has_any_tag wanted) results
  | VStr s => if String.eqb s "" then Some results
              else match results with [] => Some results | _ => None end
  | VObj tags =>
      match to_number (get tags "length"), results with
      | Some n, _ :: _ => if (0 <? n)%Z then None else Some results
      | _, _ => Some results
      end
  | _ => Some results
  end.

(** ** More of the content script *)

(** [detectProvider]. *)
Definition detectProvider (hostname : string) : string :=
  if str_includes hostname "chatgpt.com" || str_includes hostname "openai.com" then "chatgpt"
  else if str_includes hostname "claude.ai" then "claude"
  else if str_includes hostname "gemini.google.com" then "gemini"
  else if str_includes hostname "deepseek.com" then "deepseek"
  else "unknown".

(** The class [[a-z0-9-]] under the flag [i]. *)
Definition is_id_char (c : ascii) : bool :=
  let n := nat_of_ascii c in
  ((48 <=? n)%nat && (n <=? 57)%nat) || ((65 <=? n)%nat && (n <=? 90)%nat) ||
  ((97 <=? n)%nat && (n <=? 122)%nat) || (n =? 45)%nat.

(** The longest run of id characters a string starts with. *)
Fixpoint id_run (s : string) : string :=
  match s with
  | EmptyString => EmptyString
  | String c rest => if is_id_char c then String c (id_run rest) else EmptyString
  end.

(** [/literal([a-z0-9-]+)/i.exec(url)?.[1] || ''], the literal given in
    lower case: at the leftmost place where the literal, in any case, is
    followed by an id character, the run of id characters there. *)
Fixpoint capture_id (literal : string) (url : string) : string :=
  match url with
  | EmptyString => EmptyString
  | String _ rest =>
      if startsWith (fold_case url) literal
         && negb (String.eqb (id_run (str_drop (String.length literal) url)) "")
      then id_run (str_drop (String.length literal) url)
      else capture_id literal rest
  end.

(** [extractConversationId]; [hash] is [window.location.hash]. *)
Definition extractConversationId (hash : string) (url provider : string) : string :=
  if String.eqb provider "chatgpt" then capture_id "chatgpt.com/c/" url
  else if String.eqb provider "claude" then capture_id "claude.ai/chat/" url
  else if String.eqb provider "gemini" then str_drop 1 hash
  else if String.eqb provider "deepseek" then capture_id "deepseek.com/chat/" url
  else "".








(** *** Vocabulary of the content script's properties *)


(** Tags the renderer gives a form of their own. *)
Definition styled_tags : list string :=
  ["pre"; "code"; "strong"; "b"; "em"; "i"; "a"; "ul"; "ol"; "p"; "br"].

(** Markup without noise and without styled elements, at any depth. *)
Fixpoint plain_markup (n : node) : bool :=
  match n with
  | Text _ | Comment _ => true
  | Element _ _ _ _ _ children =>
      negb (is_noise n) && negb (has_tag styled_tags n) && forallb plain_markup children
  end.

(** ** Sample worlds and inputs *)

(** A backend that works, a clock at some epoch millisecond advancing by one
    per read, a constant random source. *)
Definition world_with (stored : option (list obj)) : world :=
  World stored None false false 0
        (fun n => 1700000000000 + Z.of_nat n)%Z 0
        (fun _ => "k3j9x2m1q") 0
        "https://chatgpt.com/c/42".

Definition quiet_world : world := world_with None.

(** What the extractor hands to the store: a title, the message list, and
    fields the store does not know. *)
Definition sample_data : value :=
  VObj [ ("title", VStr "Hello");
         ("messages", VArr [VObj [("role", VStr "User"); ("content", VStr "Hi")]]);
         ("modifiedAt", VNum 5) ].

Fixpoint repeat_char (n : nat) (c : ascii) : string :=
  match n with
  | O => EmptyString
  | S n' => String c (repeat_char n' c)
  end.

(** A stored conversation with the given id, content, timestamp and
    favorite flag. *)
Definition stored_record (id content : string) (timestamp : Z) (favorite : bool) : obj :=
  [ ("id", VStr id);
    ("title", VStr "Old chat");
    ("content", VStr content);
    ("provider", VStr "chatgpt");
    ("timestamp", VNum timestamp);
    ("url", VStr "https://chatgpt.com/c/7");
    ("conversationId", VStr "7");
    ("tags", VArr []);
    ("isFavorite", VBool favorite);
    ("notes", VStr "");
    ("messageCount", VNum 2) ].

(** A store holding a starred conversation and a newer plain one whose
    content is [content]. *)
Definition store_of (content : string) : list obj :=
  [ stored_record "conv_500_starred" "kept" 500 true;
    stored_record "conv_1000_plain" content 1000 false ].

(** 4,800,000 characters: more than 90% of [MAX_STORAGE_SIZE]. *)
Definition long_text : string := repeat_char (Z.to_nat 4800000) "a".

Definition crowded_world : world := world_with (Some (store_of long_text)).

(** The record a save of [sample_data] builds in these worlds. *)
Definition sample_saved : obj :=
  [ ("id", VStr "conv_1700000000000_k3j9x2m1q");
    ("title", VStr "Hello");
    ("content", VStr "");
    ("provider", VStr "unknown");
    ("timestamp", VNum 1700000000001);
    ("url", VStr "https://chatgpt.com/c/42");
    ("conversationId", VStr "");
    ("tags", VArr []);
    ("isFavorite", VBool false);
    ("notes", VStr "");
    ("messageCount", VNum 0) ].

(** A bundle of three conversations; the second carries the platform id of
    the records of [store_of]. *)
Definition incoming (title conversationId : string) : value :=
  VObj [("title", VStr title); ("conversationId", VStr conversationId)].

Definition three_bundle : value :=
  VObj [ ("version", VStr "1.0");
         ("conversations",
          VArr [incoming "First" "11"; incoming "Second" "7"; incoming "Third" "13"]) ].

(** An export bundle that lost its version field. *)
Definition versionless_bundle : obj := [("conversations", VArr [sample_data])].

(** *** Sample pages *)

Definition plain (text : string) : layout := Layout text None.


(** A question, a separator and a short answer in its wrapper, as blocks of
    one column. *)
Definition question_answer_page : list node :=
  [ Element HTMLElement "MAIN" []
      (plain ("Is Rocq fun?" +:+ newline +:+ "--" +:+ newline +:+ "Yes.")) None
      [ Element HTMLElement "DIV" [] (plain "Is Rocq fun?") None [Text "Is Rocq fun?"];
        Element HTMLElement "DIV" [] (plain "--") None [Text "--"];
        Element HTMLElement "SECTION" [] (plain "Yes.") None
          [ Element HTMLElement "DIV" [("class", "prose")] (plain "Yes.") None
              [Text "Yes."] ] ] ].

(** The same in Chinese: the sibling next to the answer shows three
    characters, the one before it seven. *)
Definition chinese_page : list node :=
  [ Element HTMLElement "MAIN" []
      (plain ("请解释一下这个" +:+ newline +:+ "你好吗" +:+ newline +:+ "好的。")) None
      [ Element HTMLElement "DIV" [] (plain "请解释一下这个") None
          [Text "请解释一下这个"];
        Element HTMLElement "DIV" [] (plain "你好吗") None [Text "你好吗"];
        Element HTMLElement "SECTION" [] (plain "好的。") None
          [ Element HTMLElement "DIV" [("class", "prose")] (plain "好的。") None
              [Text "好的。"] ] ] ].

(** An icon before the short answer's wrapper. *)
Definition icon_page : list node :=
  [ Element HTMLElement "MAIN" [] (plain "Yes.") None
      [ Element OtherElement "math" [] (plain "") None [];
        Element HTMLElement "SECTION" [] (plain "Yes.") None
          [ Element HTMLElement "DIV" [("class", "prose")] (plain "Yes.") None
              [Text "Yes."] ] ] ].

(** A page that holds a vector drawing. *)
Definition drawing_page : list node :=
  [ Element HTMLElement "MAIN" [] (plain "Hi") None
      [ Element SVGElement "svg" [("class", "icon")] (plain "") None [];
        Element HTMLElement "DIV" [("class", "markdown")] (plain "Hi") None [Text "Hi"] ] ].

(** The fixture of the specification: four turns marked with
    [data-message-author-role], each holding a [.markdown] child. *)
Definition turn (author text : string) : node :=
  Element HTMLElement "DIV" [("data-message-author-role", author)] (plain text) None
    [ Element HTMLElement "DIV" [("class", "markdown")] (plain text) None [Text text] ].

Definition fixture_page : list node :=
  [ Element HTMLElement "BODY" []
      (plain ("Hello" +:+ newline +:+ "Hi there" +:+ newline +:+ "How are you?" +:+ newline
              +:+ "Good, thanks")) None
      [ turn "user" "Hello"; turn "assistant" "Hi there";
        turn "user" "How are you?"; turn "assistant" "Good, thanks" ] ].

(** Two turns in Chinese, the first of two characters. *)
Definition chinese_turns_page : list node :=
  [ Element HTMLElement "BODY" [] (plain ("好的" +:+ newline +:+ "你好，世界")) None
      [ turn "user" "好的"; turn "assistant" "你好，世界" ] ].

(** One element seen in two pages: alone, and among siblings with its text
    inside a child. *)
Definition bubble_alone : loc :=
  Loc (Element HTMLElement "DIV" [("class", "bubble")] (Layout "fine" (Some (700 # 1))) None
         [Text "fine"])
      [] None.

Definition bubble_crowded : loc :=
  Loc (Element HTMLElement "DIV" [("class", "bubble")] (Layout "fine" (Some (700 # 1))) None
         [Element HTMLElement "SPAN" [] (Layout "fine" (Some (700 # 1))) None [Text "fine"]])
      [Text "before"; Element HTMLElement "P" [] (plain "before") None [Text "before"]] None.

(** An answer inside a wrapper that shows the answer's own text. *)
Definition wrapped_answer_page : list node :=
  [ Element HTMLElement "MAIN" []
      (plain ("What is Rocq?" +:+ newline +:+ "A proof assistant.")) None
      [ Element HTMLElement "DIV" [] (plain "What is Rocq?") None [Text "What is Rocq?"];
        Element HTMLElement "SECTION" [] (plain "A proof assistant.") None
          [ Element HTMLElement "DIV" [("class", "prose")] (plain "A proof assistant.") None
              [Text "A proof assistant."] ] ] ].

(** A highlighted code block. *)
Definition python_code : node :=
  Element HTMLElement "CODE" [("class", "hljs language-python")] (plain "print(*args)") None
    [Text "print("; Element HTMLElement "SPAN" [("class", "hljs-op")] (plain "*") None [Text "*"];
     Text "args)"].

Definition python_pre : node :=
  Element HTMLElement "PRE" [] (plain "print(*args)") None [python_code].

(** The block inside a list item of an answer. *)
Definition answer_with_code : node :=
  Element HTMLElement "DIV" [("class", "prose")]
    (plain ("Run:" +:+ newline +:+ newline +:+ "print(*args)")) None
    [ Element HTMLElement "P" [] (plain "Run:") None [Text "Run:"];
      Element HTMLElement "UL" [] (plain "print(*args)") None
        [ Element HTMLElement "LI" [] (plain "print(*args)") None [python_pre] ] ].

(** The same block inside a button. *)
Definition button_with_code : node :=
  Element HTMLElement "BUTTON" [] (plain "print(*args)") None [python_pre].

(** A store with tags. *)
Definition tagged_record (id : string) (timestamp : Z) (tags : list string) : obj :=
  [ ("id", VStr id); ("title", VStr "Tagged"); ("content", VStr ""); ("provider", VStr "claude");
    ("timestamp", VNum timestamp); ("url", VStr ""); ("conversationId", VStr "");
    ("tags", VArr (map VStr tags)); ("isFavorite", VBool false); ("notes", VStr "");
    ("messageCount", VNum 0) ].

Definition tagged_world : world :=
  world_with (Some [ tagged_record "conv_1_a" 10 ["rocq"; "proofs"];
                     tagged_record "conv_2_b" 30 ["js"; "rocq"];
                     stored_record "conv_3_c" "text" 20 true ]).
(** * Properties *)

Example json_stringify_sample :
  json_stringify (VArr [VObj [("id", VStr "a\b"); ("n", VNum (-12)); ("u", VUndefined);
                              ("tags", VArr [VUndefined; VBool true])]])
  = Some ("[{" +:+ json_quote "id" +:+ ":" +:+ String dquote "a\\b" +:+ String dquote ","
          +:+ json_quote "n" +:+ ":-12," +:+ json_quote "tags" +:+ ":[null,true]}]").
Proof. vm_compute. reflexivity. Qed.


(** ** Running the store *)

Lemma getAllConversations_run w : getAllConversations w = (Ok (visible w), w).
Proof.
  unfold getAllConversations, try_catch, bind, storage_get_conversations, ret, visible.
  destruct (get_fails w); reflexivity.
Qed.

Lemma saveConversation_run data w :
  nullish data = false ->
  saveConversation data w =
    ((if set_fails w then Throw BackendFailure else Ok (new_record data w)),
     written (if set_fails w then slot_conversations w else Some (save_payload data w)) 2 1 w).
Proof.
  intros Hdata. unfold saveConversation, try_catch, bind.
  rewrite getAllConversations_run.
  unfold save_payload, new_record, next_id.
  destruct w as [sc ss gf sf calls clk reads rnd draws href].
  unfold generateId, bind, date_now, random_suffix, ret, throw, window_location_href,
    storage_set_conversations, written.
  rewrite Hdata.
  cbn -[checkAndCleanupStorage visible String.app pretty js_or prop].
  destruct (checkAndCleanupStorage _) as [kept returned].
  cbn -[String.app pretty js_or prop].
  destruct sf; reflexivity.
Qed.

(** ** Sorting *)

Section Sorting.
Variable cmp : obj -> obj -> Z.

Lemma sort_insert_perm x l : sort_insert cmp x l ≡ₚ x :: l.
Proof.
  induction l as [|y l IH]; cbn; [done|].
  destruct (cmp x y <=? 0)%Z; [done|].
  rewrite IH. apply Permutation_swap.
Qed.

Lemma array_sort_cons x l :
  array_sort cmp (x :: l) = sort_insert cmp x (array_sort cmp l).
Proof. reflexivity. Qed.

Lemma array_sort_perm l : array_sort cmp l ≡ₚ l.
Proof.
  induction l as [|x l IH]; [done|].
  rewrite array_sort_cons, sort_insert_perm. by rewrite IH.
Qed.

Lemma array_sort_length l : length (array_sort cmp l) = length l.
Proof. by rewrite array_sort_perm. Qed.
End Sorting.

Lemma by_timestamp_desc_dated a b x y :
  timestamp_of a = Some x -> timestamp_of b = Some y ->
  by_timestamp_desc a b = (y - x)%Z.
Proof. unfold by_timestamp_desc, timestamp_of. by intros -> ->. Qed.

Lemma not_older_trans a b c : not_older a b -> not_older b c -> not_older a c.
Proof.
  intros (x & y & Hx & Hy & Hxy) (y' & z & Hy' & Hz & Hyz).
  exists x, z. repeat split; try done. rewrite Hy in Hy'. simplify_eq. lia.
Qed.

Lemma sort_insert_sorted x l :
  dated x -> Forall dated l ->
  StronglySorted not_older l ->
  StronglySorted not_older (sort_insert by_timestamp_desc x l).
Proof.
  intros [tx Hx] Hl Hs. induction Hs as [|y l Hs IH Hy]; cbn.
  - repeat constructor.
  - apply Forall_cons in Hl as [[ty Hty] Hl].
    rewrite (by_timestamp_desc_dated x y tx ty) by done.
    destruct (Z.leb_spec (ty - tx) 0) as [Hle|Hgt].
    + constructor; [by constructor|].
      assert (not_older x y) as Hxy by (exists tx, ty; repeat split; [done..|lia]).
      constructor; [done|].
      eapply Forall_impl; [exact Hy|]. intros c Hc. by eapply not_older_trans.
    + constructor; [by apply IH|].
      rewrite sort_insert_perm. constructor; [|done].
      exists ty, tx. repeat split; [done..|lia].
  Qed.

Lemma array_sort_sorted l :
  Forall dated l -> StronglySorted not_older (array_sort by_timestamp_desc l).
Proof.
  induction 1 as [|x l Hx Hl IH]; [constructor|].
  rewrite array_sort_cons.
  apply sort_insert_sorted; [done| |done].
  by rewrite array_sort_perm.
Qed.

(** The sort is the stable one: records of one timestamp keep their order. *)
Lemma sort_insert_stable (p : obj -> bool) x l :
  (forall y, y ∈ l -> p x = true -> p y = true -> (by_timestamp_desc x y <=? 0)%Z = true) ->
  List.filter p (sort_insert by_timestamp_desc x l) = List.filter p (x :: l).
Proof.
  induction l as [|y l IH]; intros Hxy; cbn; [done|].
  destruct (by_timestamp_desc x y <=? 0)%Z eqn:Hc; [done|].
  cbn. rewrite IH; last (intros z Hz; apply Hxy; by right).
  cbn. destruct (p x) eqn:Hpx, (p y) eqn:Hpy; try done.
  rewrite Hxy in Hc; [done|by left|done..].
Qed.

Lemma array_sort_stable t l :
  let same c := bool_decide (timestamp_of c = Some t) in
  List.filter same (array_sort by_timestamp_desc l) = List.filter same l.
Proof.
  intros same. induction l as [|x l IH]; [done|].
  rewrite array_sort_cons, sort_insert_stable.
  - cbn. by rewrite IH.
  - intros y _ Hx Hy. unfold same in *.
    apply bool_decide_eq_true in Hx, Hy.
    rewrite (by_timestamp_desc_dated x y t t) by done.
    apply Z.leb_le. lia.
Qed.

(** ** Capacity check *)

Lemma checkAndCleanupStorage_kept_perm l : (checkAndCleanupStorage l).1 ≡ₚ l.
Proof.
  unfold checkAndCleanupStorage.
  destruct (usage_above_90 _); [|done].
  destruct (0 <? _)%nat; cbn; apply array_sort_perm.
Qed.

Lemma save_payload_perm data w :
  save_payload data w ≡ₚ (visible w ++ [new_record data w])%list.
Proof. apply checkAndCleanupStorage_kept_perm. Qed.

(** ** [find] and [findIndex] *)

Lemma findIndex_none {A} (p : A -> bool) l :
  (forall x, x ∈ l -> p x = false) -> findIndex p l = None.
Proof.
  induction l as [|x l IH]; intros Hl; cbn; [done|].
  rewrite (Hl x) by left. rewrite IH; [done|]. intros y Hy. apply Hl. by right.
Qed.

Lemma array_find_unique {A} (p : A -> bool) l x :
  x ∈ l -> p x = true -> (forall y, y ∈ l -> p y = true -> y = x) ->
  array_find p l = Some x.
Proof.
  unfold array_find. induction l as [|y l IH]; intros Hx Hp Huniq; [by inversion Hx|].
  cbn. destruct (p y) eqn:Hy.
  - f_equal. apply Huniq; [by left|done].
  - apply IH; [|done|].
    + inversion Hx; subst; [congruence|done].
    + intros z Hz. apply Huniq. by right.
Qed.

(** ** The saved record *)

Lemma new_record_fields data w : map fst (new_record data w) = conversation_fields.
Proof. reflexivity. Qed.

Lemma lookup_field_absent k (o : obj) : k ∉ map fst o -> lookup_field k o = None.
Proof.
  induction o as [|[k' v] o IH]; cbn; [done|]. intros Hk.
  destruct (String.eqb_spec k' k) as [->|Hne].
  - exfalso. apply Hk. by left.
  - apply IH. intros Hin. apply Hk. by right.
Qed.

Lemma new_record_copied data w k :
  k ∈ copied_fields ->
  get (new_record data w) k = js_or (prop data k) (default_of w k).
Proof.
  unfold copied_fields. rewrite !elem_of_cons, elem_of_nil.
  intros [->|[->|[->|[->|[->|[->|[->|[->|[->|[]]]]]]]]]]; reflexivity.
Qed.

Lemma new_record_id data w : get (new_record data w) "id" = VStr (next_id w).
Proof. reflexivity. Qed.

Lemma new_record_timestamp data w :
  get (new_record data w) "timestamp" = VNum (clock w (S (clock_reads w))).
Proof. reflexivity. Qed.

(** ** Search *)

(** C8. With an empty query and no filters, [searchConversations] returns
    the stored conversations, all of them and nothing else, ordered from the
    most recent timestamp to the oldest, whatever the order they are stored
    in. *)
Theorem search_without_criteria_sorts_store w :
  get_fails w = false ->
  Forall dated (default [] (slot_conversations w)) ->
  exists results,
    searchConversations "" [] w = (Ok results, w) /\
    results ≡ₚ default [] (slot_conversations w) /\
    StronglySorted not_older results.
Proof.
  intros Hget Hdated.
  exists (array_sort by_timestamp_desc (default [] (slot_conversations w))).
  split; [|split].
  - unfold searchConversations, bind. rewrite getAllConversations_run.
    unfold visible. rewrite Hget. reflexivity.
  - apply array_sort_perm.
  - by apply array_sort_sorted.
Qed.

Lemma search_without_criteria_sorts_store_witness :
  let w := world_with (Some (store_of "short")) in
  get_fails w = false /\
  Forall dated (default [] (slot_conversations w)) /\
  exists results,
    searchConversations "" [] w = (Ok results, w) /\
    results ≡ₚ default [] (slot_conversations w) /\
    StronglySorted not_older results.
Proof.
  intros w.
  assert (Forall dated (default [] (slot_conversations w))) as Hdated.
  { repeat constructor; eexists; reflexivity. }
  split; [reflexivity|]. split; [exact Hdated|].
  exact (search_without_criteria_sorts_store w eq_refl Hdated).
Defined.

Example search_sample :
  (searchConversations "" [] (world_with (Some (store_of "short")))).1
  = Ok [stored_record "conv_1000_plain" "short" 1000 false;
        stored_record "conv_500_starred" "kept" 500 true].
Proof. vm_compute. reflexivity. Qed.

(** ** Update *)

(** C7. [updateConversation] on an id that no stored conversation carries
    fails with the not-found error and leaves the world as it was: no
    backend write is attempted and the stored collection is untouched. *)
Theorem update_absent_id_not_found w id updates :
  (forall conv, conv ∈ visible w -> strict_eq (get conv "id") id = false) ->
  updateConversation id updates w =
    (Throw (Error ("Conversation " +:+ to_display id +:+ " not found")), w).
Proof.
  intros Habsent. unfold updateConversation, try_catch, bind.
  rewrite getAllConversations_run.
  rewrite findIndex_none by exact Habsent. reflexivity.
Qed.

Lemma update_absent_id_not_found_witness :
  let w := world_with (Some (store_of "short")) in
  (forall conv, conv ∈ visible w -> strict_eq (get conv "id") (VStr "conv_9_gone") = false) /\
  updateConversation (VStr "conv_9_gone") (VObj [("title", VStr "Renamed")]) w =
    (Throw (Error ("Conversation " +:+ to_display (VStr "conv_9_gone") +:+ " not found")), w).
Proof.
  intros w.
  assert (forall conv, conv ∈ visible w ->
            strict_eq (get conv "id") (VStr "conv_9_gone") = false) as Habsent.
  { intros conv Hin. apply list_elem_of_In in Hin.
    destruct Hin as [<-|[<-|[]]]; reflexivity. }
  split; [exact Habsent|].
  exact (update_absent_id_not_found w (VStr "conv_9_gone") _ Habsent).
Defined.


(** ** Size of the serialized list *)

Lemma str_app_cons c (a b : string) : String c a +:+ b = String c (a +:+ b).
Proof. reflexivity. Qed.

Lemma str_length_cons c (s : string) : String.length (String c s) = S (String.length s).
Proof. reflexivity. Qed.

Lemma str_length_app (a b : string) :
  String.length (a +:+ b) = (String.length a + String.length b)%nat.
Proof.
  induction a as [|c a IH]; [done|].
  change (S (String.length (a +:+ b)) = S (String.length a + String.length b)).
  by rewrite IH.
Qed.

Lemma js_length_cons c (s : string) : js_length (String c s) = (code_units c + js_length s)%nat.
Proof. reflexivity. Qed.

Lemma js_length_app (a b : string) : js_length (a +:+ b) = (js_length a + js_length b)%nat.
Proof.
  induction a as [|c a IH]; [done|].
  rewrite str_app_cons, !js_length_cons, IH. lia.
Qed.

Lemma join_comma_length_ge p ps :
  p ∈ ps -> (js_length p <= js_length (join_comma ps))%nat.
Proof.
  induction ps as [|q ps IH]; intros Hp; [by inversion Hp|].
  destruct ps as [|q' ps].
  - apply list_elem_of_singleton in Hp as ->. done.
  - change (join_comma (q :: q' :: ps)) with (q +:+ "," +:+ join_comma (q' :: ps)).
    rewrite !js_length_app. inversion Hp; subst; [lia|].
    specialize (IH ltac:(done)). lia.
Qed.

Lemma json_escape_length c : (code_units c <= js_length (json_escape c))%nat.
Proof. destruct c as [[] [] [] [] [] [] [] []]; vm_compute; lia. Qed.

Lemma json_escape_all_length s : (js_length s <= js_length (json_escape_all s))%nat.
Proof.
  induction s as [|c s IH]; [done|].
  change (json_escape_all (String c s)) with (json_escape c +:+ json_escape_all s).
  rewrite js_length_app, js_length_cons. pose proof (json_escape_length c). lia.
Qed.

Lemma json_quote_length s : (js_length s <= js_length (json_quote s))%nat.
Proof.
  unfold json_quote. rewrite str_app_cons, js_length_cons, js_length_app.
  pose proof (json_escape_all_length s). lia.
Qed.

Lemma json_stringify_arr items :
  json_stringify (VArr items) = Some ("[" +:+ join_comma (map print_item items) +:+ "]").
Proof. reflexivity. Qed.

Lemma json_stringify_obj fields :
  json_stringify (VObj fields) = Some ("{" +:+ join_comma (omap print_field fields) +:+ "}").
Proof. reflexivity. Qed.

(** A string property of a stored record is no longer than the serialized
    list. *)
Lemma serialized_size_ge_content conversations conv k s :
  conv ∈ conversations -> (k, VStr s) ∈ conv ->
  (js_length s <= serialized_size conversations)%nat.
Proof.
  intros Hconv Hfield. unfold serialized_size.
  rewrite json_stringify_arr. cbn [default from_option id].
  rewrite !js_length_app.
  assert (js_length s <= js_length (print_item (VObj conv)))%nat as Hrec.
  { unfold print_item. rewrite json_stringify_obj. cbn [default from_option id].
    rewrite !js_length_app.
    assert (json_quote k +:+ ":" +:+ json_quote s ∈ omap print_field conv) as Hin.
    { apply list_elem_of_omap. exists (k, VStr s). split; [done|]. reflexivity. }
    apply join_comma_length_ge in Hin. rewrite !js_length_app in Hin.
    pose proof (json_quote_length s). lia. }
  assert (print_item (VObj conv) ∈ map print_item (map VObj conversations)) as Hin.
  { apply list_elem_of_fmap_2. by apply list_elem_of_fmap_2. }
  apply join_comma_length_ge in Hin. lia.
Qed.

Lemma repeat_char_length n : js_length (repeat_char n "a") = n.
Proof. induction n as [|n IH]; [done|]. cbn [repeat_char]. by rewrite js_length_cons, IH. Qed.

Lemma long_text_length : js_length long_text = Z.to_nat 4800000.
Proof. apply repeat_char_length. Qed.

(** Any list holding a record with [long_text] in a property is over the
    threshold. *)
Lemma usage_above_90_long conversations conv k :
  conv ∈ conversations -> (k, VStr long_text) ∈ conv ->
  usage_above_90 (serialized_size conversations) = true.
Proof.
  intros Hconv Hfield.
  pose proof (serialized_size_ge_content _ _ _ _ Hconv Hfield) as Hsize.
  rewrite long_text_length in Hsize.
  unfold usage_above_90, MAX_STORAGE_SIZE. apply Z.ltb_lt. lia.
Qed.

(** ** Save *)

Lemma new_record_sample stored :
  new_record sample_data (world_with stored) = sample_saved.
Proof. vm_compute. reflexivity. Qed.

(** C3. The record [saveConversation] builds for an input object, appends
    to the list it writes and returns has the eleven fields id, title,
    content, provider, timestamp, url, conversationId, tags, isFavorite,
    notes, messageCount and no other: anything else the input carries, a
    messages array or a modifiedAt value included, is not in it. *)
Theorem saved_record_has_eleven_fields fields w :
  set_fails w = false ->
  exists record w',
    saveConversation (VObj fields) w = (Ok record, w') /\
    map fst record = conversation_fields /\
    (exists persisted,
        slot_conversations w' = Some persisted /\
        persisted ≡ₚ (visible w ++ [record])%list) /\
    (forall k, k ∉ conversation_fields -> lookup_field k record = None) /\
    lookup_field "messages" record = None /\
    lookup_field "modifiedAt" record = None.
Proof.
  intros Hset. eexists _, _. split.
  { rewrite saveConversation_run by done. rewrite Hset. reflexivity. }
  split; [apply new_record_fields|]. split.
  { eexists. split; [reflexivity|]. apply save_payload_perm. }
  split; [|split; reflexivity].
  intros k Hk. apply lookup_field_absent. by rewrite new_record_fields.
Qed.

Lemma saved_record_has_eleven_fields_witness :
  set_fails quiet_world = false /\
  exists record w',
    saveConversation sample_data quiet_world = (Ok record, w') /\
    map fst record = conversation_fields /\
    (exists persisted,
        slot_conversations w' = Some persisted /\
        persisted ≡ₚ (visible quiet_world ++ [record])%list) /\
    (forall k, k ∉ conversation_fields -> lookup_field k record = None) /\
    lookup_field "messages" record = None /\
    lookup_field "modifiedAt" record = None.
Proof.
  split; [reflexivity|].
  apply (saved_record_has_eleven_fields _ quiet_world). reflexivity.
Defined.

(** C2, as stated, fails: the record read back after saving [sample_data]
    has no messages field and holds defaults where the input is silent. *)
Lemma save_then_get_differs_from_input :
  exists record w1 found w2,
    saveConversation sample_data quiet_world = (Ok record, w1) /\
    getConversation (get record "id") w1 = (Ok (Some found), w2) /\
    ~ agrees_except_assigned found sample_data.
Proof.
  exists sample_saved, (written (Some [sample_saved]) 2 1 quiet_world),
    sample_saved, (written (Some [sample_saved]) 2 1 quiet_world).
  split; [|split].
  - rewrite saveConversation_run by done. reflexivity.
  - reflexivity.
  - intros Hagree. specialize (Hagree "messages" ltac:(done) ltac:(done)).
    vm_compute in Hagree. discriminate.
Qed.

(** C2, amended. On a backend whose reads and writes succeed and that holds
    no conversation under the freshly generated id, saving an input object
    and reading the returned id back yields the record the save returned.
    On each of title, content, provider, url, conversationId, tags,
    isFavorite, notes and messageCount it holds the input's value when that
    is truthy and the field's default otherwise; id and timestamp are
    assigned by the store; it has no other field. *)
Theorem save_then_get_returns_saved_record fields w :
  get_fails w = false ->
  set_fails w = false ->
  (forall conv, conv ∈ visible w -> strict_eq (get conv "id") (VStr (next_id w)) = false) ->
  exists record w1 w2,
    saveConversation (VObj fields) w = (Ok record, w1) /\
    getConversation (get record "id") w1 = (Ok (Some record), w2) /\
    get record "id" = VStr (next_id w) /\
    get record "timestamp" = VNum (clock w (S (clock_reads w))) /\
    (forall k, k ∈ copied_fields -> get record k = js_or (get fields k) (default_of w k)) /\
    (forall k, k ∉ conversation_fields -> get record k = VUndefined).
Proof.
  intros Hget Hset Hfresh.
  exists (new_record (VObj fields) w), (written (Some (save_payload (VObj fields) w)) 2 1 w),
    (written (Some (save_payload (VObj fields) w)) 2 1 w).
  split; [|split; [|split; [|split; [|split]]]].
  - rewrite saveConversation_run by done. by rewrite Hset.
  - unfold getConversation, bind. rewrite getAllConversations_run.
    unfold visible at 1. cbn [get_fails written slot_conversations default from_option id].
    rewrite Hget. unfold ret. do 2 f_equal. rewrite new_record_id.
    apply array_find_unique.
    + rewrite save_payload_perm. apply elem_of_app. right. by left.
    + rewrite new_record_id. cbn. apply String.eqb_refl.
    + intros y Hy Hid. rewrite save_payload_perm in Hy.
      apply elem_of_app in Hy as [Hy|Hy].
      * rewrite Hfresh in Hid by done. discriminate.
      * by apply list_elem_of_singleton in Hy.
  - apply new_record_id.
  - apply new_record_timestamp.
  - intros k Hk. by apply new_record_copied.
  - intros k Hk. unfold get. rewrite lookup_field_absent; [done|].
    by rewrite new_record_fields.
Qed.

Lemma save_then_get_returns_saved_record_witness :
  get_fails quiet_world = false /\
  set_fails quiet_world = false /\
  (forall conv, conv ∈ visible quiet_world ->
                strict_eq (get conv "id") (VStr (next_id quiet_world)) = false) /\
  exists record w1 w2,
    saveConversation sample_data quiet_world = (Ok record, w1) /\
    getConversation (get record "id") w1 = (Ok (Some record), w2) /\
    get record "id" = VStr (next_id quiet_world) /\
    get record "timestamp" = VNum (clock quiet_world (S (clock_reads quiet_world))) /\
    (forall k, k ∈ copied_fields ->
               get record k = js_or (prop sample_data k) (default_of quiet_world k)) /\
    (forall k, k ∉ conversation_fields -> get record k = VUndefined).
Proof.
  assert (forall conv, conv ∈ visible quiet_world ->
            strict_eq (get conv "id") (VStr (next_id quiet_world)) = false) as Hfresh.
  { intros conv Hin. inversion Hin. }
  split; [reflexivity|]. split; [reflexivity|]. split; [exact Hfresh|].
  exact (save_then_get_returns_saved_record _ quiet_world eq_refl eq_refl Hfresh).
Defined.

(** ** Capacity eviction *)

(** What the capacity check does to the store of [store_of content] once the
    new record is pushed, when the serialized list is over the threshold:
    the caller's array is sorted, the returned array lacks the older plain
    record. *)
Lemma checkAndCleanupStorage_store_of content :
  let updated := (store_of content ++ [sample_saved])%list in
  usage_above_90 (serialized_size updated) = true ->
  checkAndCleanupStorage updated =
    ([sample_saved;
      stored_record "conv_1000_plain" content 1000 false;
      stored_record "conv_500_starred" "kept" 500 true],
     [sample_saved; stored_record "conv_500_starred" "kept" 500 true]).
Proof.
  intros updated Hover. unfold checkAndCleanupStorage. rewrite Hover.
  vm_compute. reflexivity.
Qed.

Lemma crowded_visible : visible crowded_world = store_of long_text.
Proof. reflexivity. Qed.

Lemma crowded_over_threshold :
  usage_above_90 (serialized_size (store_of long_text ++ [sample_saved])%list) = true.
Proof.
  apply (usage_above_90_long _ (stored_record "conv_1000_plain" long_text 1000 false) "content").
  - apply elem_of_app. left. right. left.
  - right. right. left.
Qed.

(** C1, on the code. In [crowded_world] the list with the new record is over
    90% of the ceiling and holds plain conversations; the capacity check
    computes the list without the oldest plain one, and the save writes the
    list that still holds it. *)
Theorem save_over_capacity_writes_unevicted_list :
  let plain := stored_record "conv_1000_plain" long_text 1000 false in
  let starred := stored_record "conv_500_starred" "kept" 500 true in
  let updated := (visible crowded_world ++ [new_record sample_data crowded_world])%list in
  usage_above_90 (serialized_size updated) = true /\
  plain ∈ updated /\ truthy (get plain "isFavorite") = false /\
  (checkAndCleanupStorage updated).2 = [sample_saved; starred] /\
  saveConversation sample_data crowded_world =
    (Ok sample_saved, written (Some [sample_saved; plain; starred]) 2 1 crowded_world).
Proof.
  intros plain starred updated. subst updated.
  rewrite crowded_visible. unfold crowded_world. rewrite new_record_sample.
  pose proof crowded_over_threshold as Hover.
  pose proof (checkAndCleanupStorage_store_of long_text Hover) as Hcheck.
  split; [exact Hover|]. split; [right; left|]. split; [reflexivity|].
  split; [by rewrite Hcheck|].
  rewrite saveConversation_run by done.
  unfold save_payload. change (visible (world_with (Some (store_of long_text))))
    with (store_of long_text).
  rewrite new_record_sample, Hcheck. reflexivity.
Qed.

(** The list the capacity check returns keeps every favorite whose id no
    evicted conversation shares. *)
Lemma checkAndCleanupStorage_returned_favorites conversations conv :
  conv ∈ conversations ->
  get conv "isFavorite" = VBool true ->
  (forall other, other ∈ conversations -> truthy (get other "isFavorite") = false ->
                 strict_eq (get other "id") (get conv "id") = false) ->
  conv ∈ (checkAndCleanupStorage conversations).2.
Proof.
  intros Hin Hfav Hids. unfold checkAndCleanupStorage.
  destruct (usage_above_90 _); [|done].
  destruct (0 <? _)%nat; cbn [snd]; [|by rewrite array_sort_perm].
  apply list_elem_of_In, filter_In. split.
  { apply list_elem_of_In. by rewrite array_sort_perm. }
  apply negb_true_iff, not_true_iff_false. intros Hdel.
  apply existsb_exists in Hdel as (id & Hid & Heq).
  apply in_map_iff in Hid as (other & <- & Hother).
  assert (In other (List.filter (fun c => negb (truthy (get c "isFavorite")))
                      (array_sort by_timestamp_desc conversations))) as Hnf.
  { unfold slice_last in Hother. destruct (_ =? 0)%nat; [done|].
    apply list_elem_of_In in Hother. apply list_elem_of_In.
    by eapply (subseteq_drop _ _ other). }
  apply filter_In in Hnf as [Hother' Hplain].
  apply negb_true_iff in Hplain.
  apply list_elem_of_In in Hother'. rewrite array_sort_perm in Hother'.
  by rewrite (Hids other Hother' Hplain) in Heq.
Qed.

(** C6. A save whose updated list is over the threshold removes no
    conversation with [isFavorite = true]: every such conversation of the
    updated list is in the list the save writes. It is also in the list the
    capacity check computes, as long as no conversation without the favorite
    flag carries its id. *)
Theorem save_under_pressure_keeps_favorites data w conv :
  let updated := (visible w ++ [new_record data w])%list in
  nullish data = false ->
  set_fails w = false ->
  usage_above_90 (serialized_size updated) = true ->
  conv ∈ updated ->
  get conv "isFavorite" = VBool true ->
  (exists record w' persisted,
      saveConversation data w = (Ok record, w') /\
      slot_conversations w' = Some persisted /\
      conv ∈ persisted) /\
  ((forall other, other ∈ updated -> truthy (get other "isFavorite") = false ->
                  strict_eq (get other "id") (get conv "id") = false) ->
   conv ∈ (checkAndCleanupStorage updated).2).
Proof.
  intros updated Hdata Hset _ Hin Hfav. split.
  - eexists _, _, _. split; [|split].
    + rewrite saveConversation_run by done. rewrite Hset. reflexivity.
    + reflexivity.
    + by rewrite save_payload_perm.
  - intros Hids. by apply checkAndCleanupStorage_returned_favorites.
Qed.

Lemma save_under_pressure_keeps_favorites_witness :
  let starred := stored_record "conv_500_starred" "kept" 500 true in
  let updated := (visible crowded_world ++ [new_record sample_data crowded_world])%list in
  nullish sample_data = false /\
  set_fails crowded_world = false /\
  usage_above_90 (serialized_size updated) = true /\
  starred ∈ updated /\
  get starred "isFavorite" = VBool true /\
  (exists record w' persisted,
      saveConversation sample_data crowded_world = (Ok record, w') /\
      slot_conversations w' = Some persisted /\
      starred ∈ persisted) /\
  ((forall other, other ∈ updated -> truthy (get other "isFavorite") = false ->
                  strict_eq (get other "id") (get starred "id") = false) ->
   starred ∈ (checkAndCleanupStorage updated).2).
Proof.
  intros starred updated.
  assert (usage_above_90 (serialized_size updated) = true) as Hover.
  { subst updated. rewrite crowded_visible. unfold crowded_world.
    rewrite new_record_sample. exact crowded_over_threshold. }
  assert (starred ∈ updated) as Hin.
  { subst updated. rewrite crowded_visible. apply elem_of_app. left. left. }
  split; [reflexivity|]. split; [reflexivity|]. split; [exact Hover|].
  split; [exact Hin|]. split; [reflexivity|].
  exact (save_under_pressure_keeps_favorites sample_data crowded_world starred
           eq_refl eq_refl Hover Hin eq_refl).
Defined.


(** ** Import *)

(** [importData] refuses a bundle whose conversations are not an array
    before it reads the store. *)
Lemma importData_rejects_non_array data mergeStrategy w :
  is_array (if truthy data then prop data "conversations" else VUndefined) = false ->
  importData data mergeStrategy w = (Throw (Error "Invalid import data format"), w).
Proof.
  intros Harr. unfold importData, try_catch.
  destruct (if truthy data then _ else _); try reflexivity. discriminate.
Qed.

(** [importData] itself does not look at the version: called directly on a
    bundle without one, it imports the records. The version check is the
    one of [handleImport]. *)
Lemma importData_ignores_version :
  exists w',
    importData (VObj versionless_bundle) "skip" quiet_world
      = (Ok (ImportResults 1 0 0 []), w') /\
    slot_conversations w' = Some [sample_saved].
Proof. eexists. split; reflexivity. Qed.

(** The import scenarios of the specification: three records, one of them
    a duplicate by platform id. *)
Example import_three_skip :
  let w := world_with (Some (store_of "short")) in
  (importData three_bundle "skip" w).1 = Ok (ImportResults 2 1 0 []) /\
  length <$> slot_conversations (importData three_bundle "skip" w).2 = Some 4%nat.
Proof. vm_compute. done. Qed.

Example import_three_update :
  let w := world_with (Some (store_of "short")) in
  (importData three_bundle "update" w).1 = Ok (ImportResults 2 0 1 []) /\
  (fun stored => (fun c => (get c "id", get c "title")) <$> stored !! 0%nat)
    <$> slot_conversations (importData three_bundle "update" w).2
  = Some (Some (VStr "conv_500_starred", VStr "Second")).
Proof. vm_compute. done. Qed.

(** C4. An import bundle without a top-level version field, or whose
    conversations field is absent or not an array, is refused with an
    invalid-format error before any record is processed: the world, stored
    collection included, is as it was. *)
Theorem import_rejects_malformed_bundle fields confirmImport confirmUpdate w :
  lookup_field "version" fields = None \/ is_array (get fields "conversations") = false ->
  exists error,
    handleImport (Parsed (VObj fields)) confirmImport confirmUpdate w
      = (Ok (ImportFailed error), w) /\
    invalid_format error.
Proof.
  intros Hbad. unfold handleImport, try_catch. cbn [nullish prop].
  destruct (truthy (get fields "version")) eqn:Hversion; cbn [negb].
  - destruct Hbad as [Hnone|Harr].
    { unfold get in Hversion. rewrite Hnone in Hversion. discriminate. }
    destruct (get fields "conversations"); try discriminate;
      (eexists; split; [reflexivity|right; left; reflexivity]).
  - eexists. split; [reflexivity|left; reflexivity].
Qed.

Lemma import_rejects_malformed_bundle_witness :
  (lookup_field "version" versionless_bundle = None \/
   is_array (get versionless_bundle "conversations") = false) /\
  exists error,
    handleImport (Parsed (VObj versionless_bundle)) true false quiet_world
      = (Ok (ImportFailed error), quiet_world) /\
    invalid_format error.
Proof.
  split; [left; reflexivity|].
  apply (import_rejects_malformed_bundle versionless_bundle true false quiet_world).
  left. reflexivity.
Defined.


(** * The content script *)

(** ** Role classifier *)

Lemma loc_rooted_ind (P : loc -> Prop) :
  (forall self preceding, P (Loc self preceding None)) ->
  (forall self preceding up, P up -> P (Loc self preceding (Some up))) ->
  forall el, P el.
Proof.
  intros Hroot Hstep. fix IH 1. intros [self preceding [up|]].
  - apply Hstep, IH.
  - apply Hroot.
Qed.

Lemma closest_tags_upward tag el : is_Some (closest tag el) <-> tag ∈ tags_upward el.
Proof.
  induction el as [self preceding|self preceding up IH] using loc_rooted_ind;
    cbn [closest tags_upward]; rewrite elem_of_cons;
    destruct (String.eqb_spec (tag_of self) tag) as [Heq|Hne].
  - split; [by left|]. by eexists.
  - split; [by intros [? ?]|]. intros [?|Hin]; [congruence|by inversion Hin].
  - split; [by left|]. by eexists.
  - rewrite IH. split; [by right|]. by intros [?|?]; [congruence|].
Qed.

Lemma closest_determined tag el1 el2 :
  tags_upward el1 = tags_upward el2 ->
  bool_decide (is_Some (closest tag el1)) = bool_decide (is_Some (closest tag el2)).
Proof.
  intros Htags. apply bool_decide_ext. by rewrite !closest_tags_upward, Htags.
Qed.

(** C10. The role [detectRole] gives depends on nothing but what there is
    to see of the element (its tag and its ancestors' tags, its attributes,
    its text, its geometry), the viewport width and the index: calls that
    agree on these return the same role, whatever else the page holds and
    whatever was classified before. *)
Theorem detectRole_determined_by_observation innerWidth el1 el2 index :
  observe el1 = observe el2 ->
  detectRole innerWidth el1 index = detectRole innerWidth el2 index.
Proof.
  intros Hobs. injection Hobs as Htags Hattrs Htext Hleft.
  assert (tag_of (self_of el1) = tag_of (self_of el2)) as Htag.
  { destruct el1, el2. cbn in Htags |- *. congruence. }
  unfold detectRole, getAttribute.
  rewrite Htag, Hattrs, Htext, Hleft.
  by rewrite !(closest_determined _ el1 el2 Htags).
Qed.

Lemma detectRole_determined_by_observation_witness :
  observe bubble_alone = observe bubble_crowded /\
  detectRole 1280 bubble_alone 3 = detectRole 1280 bubble_crowded 3.
Proof.
  split; [reflexivity|].
  apply (detectRole_determined_by_observation 1280 bubble_alone bubble_crowded 3).
  reflexivity.
Defined.

Example detectRole_by_geometry : detectRole 1280 bubble_alone 3 = Ok User.
Proof. vm_compute. reflexivity. Qed.

Example detectRole_by_alternation : detectRole 1600 bubble_alone 3 = Ok Assistant.
Proof. vm_compute. reflexivity. Qed.

(** The end-to-end fixture of the specification. *)
Example export_fixture :
  exported_messages 1280 fixture_page =
    Ok (Some [ Message User "Hello"; Message Assistant "Hi there";
               Message User "How are you?"; Message Assistant "Good, thanks" ]).
Proof. vm_compute. reflexivity. Qed.

(** Content of two code units is left out, whatever its size in bytes. *)
Example export_chinese_turns :
  exported_messages 1280 chinese_turns_page = Ok (Some [Message Assistant "你好，世界"]).
Proof. vm_compute. reflexivity. Qed.

(** A vector drawing on the page stops the scan at the block filter. *)
Example export_drawing_page : exported_messages 1280 drawing_page = Throw not_a_function.
Proof. vm_compute. reflexivity. Qed.

(** ** Fallback scan *)


(** The loop of the fallback scan, one turn at a time. *)
Lemma skip_short_previous parent preceding :
  skip_short (previous_element parent preceding) = skip_short_siblings parent preceding.
Proof.
  induction preceding as [|n rest IH]; [done|].
  cbn [previous_element skip_short_siblings].
  by destruct (is_element n).
Qed.

Lemma skip_short_unfold el :
  skip_short (Some el) =
    short ← short_text (self_of el);
    if short : bool then skip_short (previousElementSibling el) else Ok (Some el).
Proof.
  destruct el as [self preceding parent]. cbn [skip_short self_of].
  unfold previousElementSibling. cbn [parentElement preceding_of].
  by rewrite skip_short_previous.
Qed.









(** The walk passes the answer's wrapper and the separator, both short, and
    stops on the question. *)
Example fallback_question_answer :
  collect_messages 1280 (getDeepElements question_answer_page)
  = Ok [Message User "Is Rocq fun?"; Message Assistant "Yes."].
Proof. vm_compute. reflexivity. Qed.

(** Text is measured in code units: three Chinese characters are short,
    seven are not. *)
Example fallback_chinese :
  collect_messages 1280 (getDeepElements chinese_page)
  = Ok [Message User "请解释一下这个"; Message Assistant "好的。"].
Proof. vm_compute. reflexivity. Qed.

(** The walk starts at the container's parent: a parent showing 5 code
    units or more is itself taken for the user's turn. *)
Example fallback_wrapped_answer :
  collect_messages 1280 (getDeepElements wrapped_answer_page)
  = Ok [Message User "A proof assistant."; Message Assistant "A proof assistant."].
Proof. vm_compute. reflexivity. Qed.

(** The walk meets an element without [innerText]. *)
Example fallback_icon :
  primary_messages 1280 (getDeepElements icon_page) = Ok [] /\
  collect_messages 1280 (getDeepElements icon_page) = Throw no_properties.
Proof. vm_compute. done. Qed.

Lemma str_app_nil_l (a : string) : "" +:+ a = a.
Proof. reflexivity. Qed.

Lemma str_app_nil_r (a : string) : a +:+ "" = a.
Proof. induction a as [|c a IH]; [done|]. by rewrite str_app_cons, IH. Qed.

Lemma str_app_assoc (a b c : string) : (a +:+ b) +:+ c = a +:+ (b +:+ c).
Proof. induction a as [|x a IH]; [done|]. by rewrite !str_app_cons, IH. Qed.

Lemma str_contains_refl s : str_contains s s.
Proof. exists "", "". by rewrite str_app_nil_l, str_app_nil_r. Qed.

Lemma str_contains_app_l a b s : str_contains a s -> str_contains (a +:+ b) s.
Proof.
  intros (x & y & ->). exists x, (y +:+ b). by rewrite !str_app_assoc.
Qed.

Lemma str_contains_app_r a b s : str_contains b s -> str_contains (a +:+ b) s.
Proof.
  intros (x & y & ->). exists (a +:+ x), y. by rewrite !str_app_assoc.
Qed.

Lemma str_contains_concat {A} (f : A -> string) l x s :
  x ∈ l -> str_contains (f x) s -> str_contains (str_concat (map f l)) s.
Proof.
  induction l as [|y l IH]; intros Hin Hs; [by inversion Hin|].
  cbn [map str_concat]. inversion Hin; subst.
  - by apply str_contains_app_l.
  - by apply str_contains_app_r, IH.
Qed.

(** *** Strings of the engine *)

(** Lengths and cuts count UTF-16 code units. *)
Example js_length_samples :
  js_length "what?" = 5%nat /\ js_length "你好吗" = 3%nat /\ js_length "😀" = 2%nat.
Proof. vm_compute. done. Qed.

Example js_take_samples :
  js_take 3 "你好吗?" = "你好吗" /\ js_take 3 "a😀b" = "a😀" /\
  js_take 2 "a😀b" = "a" +:+ utf8 55357.
Proof. vm_compute. done. Qed.

(** [trim] removes the white space of ECMAScript, the no-break space and
    the ideographic space included, and nothing else. *)
Example trim_samples :
  trim (utf8 160 +:+ " ok " +:+ utf8 12288 +:+ newline) = "ok" /\
  trim (utf8 160 +:+ utf8 160 +:+ utf8 8239) = "" /\
  trim ("é" +:+ utf8 8203) = "é" +:+ utf8 8203.
Proof. vm_compute. done. Qed.

Example toLowerCase_samples :
  toLowerCase "Hello, YOU" = "hello, you" /\
  toLowerCase (utf8 304 +:+ utf8 8490) = "i" +:+ utf8 775 +:+ "k".
Proof. vm_compute. done. Qed.

(** *** White space *)

Lemma str_all_app p a b : str_all p (a +:+ b) = str_all p a && str_all p b.
Proof.
  induction a as [|c a IH]; [done|].
  rewrite str_app_cons. cbn [str_all]. by rewrite IH, andb_assoc.
Qed.

(** No white-space character holds a solid byte. *)
Lemma white_space_no_solid w :
  is_white_space w = true -> str_all (fun c => negb (solid c)) w = true.
Proof.
  unfold is_white_space. intros Hw.
  apply existsb_exists in Hw as (x & Hin & ->%String.eqb_eq).
  vm_compute in Hin. repeat destruct Hin as [<-|Hin]; try reflexivity. destruct Hin.
Qed.

Lemma window_solid w x :
  solid x = true -> str_all (fun c => negb (solid c)) w = false -> is_white_space w = false.
Proof.
  intros _ Hw. destruct (is_white_space w) eqn:Hws; [|done].
  apply white_space_no_solid in Hws. congruence.
Qed.

Ltac solid_window :=
  repeat match goal with
         | H : solid ?x = true |- context [is_white_space ?w] =>
             match w with
             | context [x] =>
                 rewrite (window_solid w x H)
                   by (cbn [str_all]; rewrite H; cbn [negb andb]; by rewrite ?andb_false_r)
             end
         end.

Lemma trim_start_solid s : starts_solid s -> trim_start s = s.
Proof.
  destruct s as [|x [|y [|z s]]]; [done|..]; cbn [starts_solid]; intros Hx;
    cbn [trim_start]; by solid_window.
Qed.

Lemma trim_start_unfold a r1 :
  trim_start (String a r1) =
    if is_white_space (String a "") then trim_start r1
    else
      match r1 with
      | EmptyString => String a r1
      | String b r2 =>
          if is_white_space (String a (String b "")) then trim_start r2
          else
            match r2 with
            | EmptyString => String a r1
            | String c r3 =>
                if is_white_space (String a (String b (String c ""))) then trim_start r3
                else String a r1
            end
      end.
Proof. reflexivity. Qed.

Lemma trim_start_before a x t :
  solid x = true -> exists a', trim_start (a +:+ String x t) = a' +:+ String x t.
Proof.
  intros Hx.
  assert (forall n pre, (String.length pre <= n)%nat ->
            exists a', trim_start (pre +:+ String x t) = a' +:+ String x t) as Hall.
  { induction n as [|n IH]; intros pre Hlen.
    { destruct pre; [|cbn in Hlen; lia]. exists "". rewrite str_app_nil_l.
      by apply trim_start_solid. }
    destruct pre as [|c [|d pre]].
    - exists "". rewrite str_app_nil_l. by apply trim_start_solid.
    - rewrite str_app_cons, str_app_nil_l, trim_start_unfold. cbv beta iota.
      destruct (is_white_space (String c "")).
      + exists "". rewrite str_app_nil_l. by apply trim_start_solid.
      + exists (String c ""). solid_window. destruct t; [done|]. by solid_window.
    - rewrite !str_app_cons, trim_start_unfold. cbv beta iota. cbn in Hlen.
      destruct (is_white_space (String c "")).
      { rewrite <- str_app_cons. apply IH. cbn. lia. }
      destruct (is_white_space (String c (String d ""))).
      { apply IH. lia. }
      destruct pre as [|e pre].
      + rewrite str_app_nil_l. solid_window. by exists (String c (String d "")).
      + rewrite str_app_cons.
        destruct (is_white_space (String c (String d (String e "")))).
        * apply IH. cbn in Hlen. lia.
        * by exists (String c (String d (String e pre))). }
  by apply (Hall (String.length a)).
Qed.

Lemma trim_start_app a s b :
  starts_solid s -> exists a', trim_start (a +:+ s +:+ b) = a' +:+ s +:+ b.
Proof.
  destruct s as [|x s]; [done|]. cbn [starts_solid]. intros Hx.
  rewrite str_app_cons. by apply trim_start_before.
Qed.

Lemma blank_no_solid s : blank s = true -> str_all (fun c => negb (solid c)) s = true.
Proof.
  assert (forall n s, (String.length s <= n)%nat -> blank s = true ->
            str_all (fun c => negb (solid c)) s = true) as Hall.
  { clear s. unfold blank. induction n as [|n IH]; intros s Hlen Hblank.
    { destruct s; [done|]. cbn in Hlen. lia. }
    destruct s as [|a [|b [|c s]]]; [done|..]; rewrite trim_start_unfold in Hblank;
      cbv beta iota in Hblank; cbn in Hlen.
    - destruct (is_white_space (String a "")) eqn:Ha; [|done].
      by apply white_space_no_solid in Ha.
    - destruct (is_white_space (String a "")) eqn:Ha.
      { apply white_space_no_solid in Ha. cbn [str_all] in Ha |- *.
        rewrite andb_true_r in Ha. rewrite Ha. apply (IH (String b "")); [cbn; lia|done]. }
      destruct (is_white_space (String a (String b ""))) eqn:Hab; [|done].
      by apply white_space_no_solid in Hab.
    - destruct (is_white_space (String a "")) eqn:Ha.
      { apply white_space_no_solid in Ha. cbn [str_all] in Ha |- *.
        rewrite andb_true_r in Ha. rewrite Ha.
        apply (IH (String b (String c s))); [cbn; lia|done]. }
      destruct (is_white_space (String a (String b ""))) eqn:Hab.
      { apply white_space_no_solid in Hab. cbn [str_all] in Hab |- *.
        rewrite andb_true_r in Hab. apply andb_true_iff in Hab as [-> ->].
        apply (IH (String c s)); [cbn; lia|done]. }
      destruct (is_white_space (String a (String b (String c "")))) eqn:Habc; [|done].
      apply white_space_no_solid in Habc. cbn [str_all] in Habc |- *.
      rewrite andb_true_r in Habc. apply andb_true_iff in Habc as [-> [-> ->]%andb_true_iff].
      apply (IH s); [lia|done]. }
  by apply (Hall (String.length s)).
Qed.

Lemma ends_solid_nonempty u : ends_solid u -> u <> "".
Proof. by destruct u. Qed.

Lemma ends_solid_not_blank u b : ends_solid u -> blank (u +:+ b) = false.
Proof.
  intros Hu. destruct (blank (u +:+ b)) eqn:Hblank; [|done].
  apply blank_no_solid in Hblank. rewrite str_all_app in Hblank.
  apply andb_true_iff in Hblank as [Hblank _]. exfalso.
  induction u as [|c u IH]; [done|]. cbn [str_all] in Hblank.
  apply andb_true_iff in Hblank as [Hc Hrest]. destruct u as [|d u].
  - cbn in Hu. by rewrite Hu in Hc.
  - by apply IH.
Qed.

Lemma trim_end_app u b : ends_solid u -> trim_end (u +:+ b) = u +:+ trim_end b.
Proof.
  induction u as [|c u IH]; [done|]. intros Hu.
  rewrite !str_app_cons. cbn [trim_end].
  replace (blank (String c (u +:+ b))) with false
    by (symmetry; apply (ends_solid_not_blank (String c u) b Hu)).
  f_equal. destruct u as [|d u]; [done|]. by apply IH.
Qed.

Lemma ends_solid_app a s : ends_solid s -> ends_solid (a +:+ s).
Proof.
  intros Hs. induction a as [|c a IH]; [done|].
  rewrite str_app_cons. cbn [ends_solid].
  destruct (a +:+ s) eqn:Heq; [|done].
  by apply ends_solid_nonempty in IH.
Qed.

Lemma str_contains_trim t s :
  starts_solid s -> ends_solid s -> str_contains t s -> str_contains (trim t) s.
Proof.
  intros Hstart Hend (a & b & ->). unfold trim.
  destruct (trim_start_app a s b Hstart) as [a' ->].
  rewrite <- str_app_assoc, trim_end_app by by apply ends_solid_app.
  rewrite str_app_assoc. by eexists _, _.
Qed.

Lemma code_fence_starts_solid lang body : starts_solid (code_fence lang body).
Proof. reflexivity. Qed.

Lemma code_fence_ends_solid lang body : ends_solid (code_fence lang body).
Proof.
  unfold code_fence. rewrite <- !str_app_assoc. apply ends_solid_app. reflexivity.
Qed.

(** ** The language tag *)

Lemma word_run_app xxx rest :
  word_run xxx = xxx -> word_run rest = "" -> word_run (xxx +:+ rest) = xxx.
Proof.
  induction xxx as [|c xxx IH]; intros Hword Hrest; [by rewrite str_app_nil_l|].
  rewrite str_app_cons. cbn [word_run] in Hword |- *.
  destruct (is_word_char c); [|done]. f_equal. apply IH; [congruence|done].
Qed.

Lemma startsWith_app s rest : startsWith (s +:+ rest) s = true.
Proof.
  induction s as [|c s IH]; [reflexivity|].
  rewrite str_app_cons. cbn [startsWith]. by rewrite Ascii.eqb_refl, IH.
Qed.

Lemma str_drop_app s rest : str_drop (String.length s) (s +:+ rest) = rest.
Proof. induction s as [|c s IH]; [by destruct rest|]. by rewrite str_app_cons. Qed.

(** No occurrence of [language-] starts in a text that holds none and runs
    into one that follows it. *)
Lemma language_prefix_stays_out before rest :
  before <> "" ->
  startsWith (before +:+ "language-" +:+ rest) "language-" = true ->
  startsWith before "language-" = true.
Proof.
  intros Hne Hstart.
  destruct before as [|c0 [|c1 [|c2 [|c3 [|c4 [|c5 [|c6 [|c7 [|c8 before]]]]]]]]];
    [done|..]; rewrite ?str_app_cons, ?str_app_nil_l in Hstart;
    cbn in Hstart |- *; rewrite ?andb_false_r in Hstart; try discriminate.
  rewrite andb_true_r in *. exact Hstart.
Qed.

Lemma language_of_app before xxx rest :
  str_includes before "language-" = false ->
  xxx <> "" -> word_run xxx = xxx -> word_run rest = "" ->
  language_of (before +:+ "language-" +:+ xxx +:+ rest) = xxx.
Proof.
  intros Hclear Hne Hword Hrest. induction before as [|c before IH].
  - rewrite str_app_nil_l.
    change (language_of ("language-" +:+ xxx +:+ rest))
      with (if startsWith ("language-" +:+ xxx +:+ rest) "language-"
               && negb (String.eqb (word_run (str_drop (String.length "language-")
                                                ("language-" +:+ xxx +:+ rest))) "")
            then word_run (str_drop (String.length "language-")
                             ("language-" +:+ xxx +:+ rest))
            else language_of ("anguage-" +:+ xxx +:+ rest)).
    rewrite startsWith_app, str_drop_app, word_run_app by done.
    by destruct (String.eqb_spec xxx "").
  - cbn [str_includes] in Hclear. apply orb_false_elim in Hclear as [Hhere Hlater].
    rewrite str_app_cons. cbn [language_of]. rewrite <- str_app_cons.
    destruct (startsWith (String c before +:+ _) "language-") eqn:Hstart.
    + apply language_prefix_stays_out in Hstart; [congruence|done].
    + cbn [andb]. by apply IH.
Qed.

(** ** Markdown renderer *)

(** One step of [extractMarkdownFromElement] on an element, the tests on
    its tag and the rendering of its children left folded. *)
Ltac unfold_renderer :=
  cbn -[is_noise tag_of fenced_block String.eqb trim pretty list_items].

Lemma extract_pre n :
  is_element n = true -> is_noise n = false -> tag_of n = "pre" ->
  extractMarkdownFromElement n = fenced_block n.
Proof.
  destruct n as [| |kind tag attrs rendered shadow children]; [done..|].
  intros _ Hnoise Htag.
  unfold_renderer.
  by rewrite Hnoise, Htag.
Qed.

Lemma list_items_contains render ordered cs i c s :
  c ∈ cs -> tag_of c = "li" ->
  str_contains (trim (render c)) s ->
  str_contains (list_items render ordered cs i) s.
Proof.
  intros Hin Hli Hs. revert i.
  induction cs as [|d cs IH]; intros i; [by inversion Hin|].
  cbn [list_items]. inversion Hin; subst.
  - assert (is_element d = true) as -> by (by destruct d).
    rewrite Hli. cbn [String.eqb Ascii.eqb Bool.eqb]. 
    apply str_contains_app_l, str_contains_app_r, str_contains_app_l. exact Hs.
  - destruct (is_element d); [apply str_contains_app_r|]; by apply IH.
Qed.

Lemma has_tag_cons tags t n :
  has_tag (t :: tags) n = String.eqb (tag_of n) t || has_tag tags n.
Proof. reflexivity. Qed.

Lemma extract_through_child n c s :
  is_element n = true -> is_noise n = false -> has_tag opaque_tags n = false ->
  c ∈ children_of n ->
  starts_solid s -> ends_solid s ->
  str_contains (extractMarkdownFromElement c) s ->
  str_contains (extractMarkdownFromElement n) s.
Proof.
  destruct n as [| |kind tag attrs rendered shadow children]; [done..|].
  intros _ Hnoise Htags Hin Hstart Hend Hs.
  unfold opaque_tags in Htags. rewrite !has_tag_cons in Htags.
  repeat (apply orb_false_elim in Htags as [? Htags]).
  assert (str_contains (str_concat (map extractMarkdownFromElement children)) s) as Hall.
  { by eapply str_contains_concat. }
  unfold_renderer.
  rewrite Hnoise.
  repeat match goal with H : String.eqb _ _ = false |- _ => rewrite H; clear H end.
  cbn [orb].
  repeat match goal with
         | |- context [if ?b then _ else _] => destruct b
         end;
    auto using str_contains_app_l, str_contains_app_r, str_contains_trim.
Qed.

Lemma extract_through_item n c s :
  is_element n = true -> is_noise n = false -> has_tag ["ul"; "ol"] n = true ->
  c ∈ children_of n -> tag_of c = "li" ->
  starts_solid s -> ends_solid s ->
  str_contains (extractMarkdownFromElement c) s ->
  str_contains (extractMarkdownFromElement n) s.
Proof.
  destruct n as [| |kind tag attrs rendered shadow children]; [done..|].
  intros _ Hnoise Htags Hin Hli Hstart Hend Hs.
  assert (str_contains
            (list_items extractMarkdownFromElement
               (String.eqb (tag_of (Element kind tag attrs rendered shadow children)) "ol")
               children 0) s) as Hitems.
  { eapply list_items_contains; [done..|]. by apply str_contains_trim. }
  rewrite !has_tag_cons in Htags. cbn [has_tag existsb] in Htags.
  rewrite orb_false_r in Htags.
  unfold_renderer.
  rewrite Hnoise.
  apply orb_true_iff in Htags as [Htag|Htag]; apply String.eqb_eq in Htag;
    rewrite Htag in *; cbn [String.eqb Ascii.eqb Bool.eqb orb];
    by apply str_contains_app_r, str_contains_app_l.
Qed.

Example render_answer_with_code :
  extractMarkdownFromElement answer_with_code
  = "Run:" +:+ newline +:+ newline +:+ newline
    +:+ "- ```python" +:+ newline +:+ "print(*args)" +:+ newline +:+ "```" +:+ newline
    +:+ newline.
Proof. vm_compute. reflexivity. Qed.

Example language_of_samples :
  language_of "language-js" = "js" /\
  language_of "hljs language-c++ wide" = "c" /\
  language_of "nolanguage-py language-js" = "py" /\
  language_of "language- language-go" = "go" /\
  language_of "plain" = "".
Proof. vm_compute. done. Qed.

(** C9, as stated, fails: the subtree [button_with_code] holds a [pre] whose
    inner [code] carries the class [language-python], and renders to the
    empty string. *)
Lemma pruned_subtree_renders_no_fence :
  python_pre ∈ children_of button_with_code /\
  tag_of python_pre = "pre" /\
  querySelector is_code python_pre = Some python_code /\
  classList_contains python_code "language-python" = true /\
  extractMarkdownFromElement button_with_code = "" /\
  ~ str_contains (extractMarkdownFromElement button_with_code)
      (code_fence "python" (textContent python_code)).
Proof.
  split; [left|]. do 4 (split; [reflexivity|]).
  intros (before & after & Heq).
  change (extractMarkdownFromElement button_with_code) with "" in Heq.
  destruct before; discriminate.
Qed.

(** C9, amended. Take a [pre] element that is not filtered as noise, whose
    first inner [code] element has a class attribute in which the first
    [language-] is followed by the word [xxx]. Its Markdown is a blank
    line, the fence tagged [xxx], the exact text content of the [code]
    element, the closing fence. Every subtree from whose root the [pre] is
    reached through elements the renderer recurses into contains that fence
    with that body. *)
Theorem rendered_pre_is_tagged_fence root pre code before xxx rest :
  rendered_through pre root ->
  is_element pre = true -> is_noise pre = false -> tag_of pre = "pre" ->
  querySelector is_code pre = Some code ->
  className code = before +:+ "language-" +:+ xxx +:+ rest ->
  str_includes before "language-" = false ->
  xxx <> "" -> word_run xxx = xxx -> word_run rest = "" ->
  extractMarkdownFromElement pre
    = newline +:+ code_fence xxx (textContent code) +:+ newline +:+ newline /\
  str_contains (extractMarkdownFromElement root) (code_fence xxx (textContent code)).
Proof.
  intros Hpath Helem Hnoise Htag Hcode Hclass Hclear Hne Hword Hrest.
  assert (extractMarkdownFromElement pre
          = newline +:+ code_fence xxx (textContent code) +:+ newline +:+ newline) as Hpre.
  { rewrite extract_pre by done. unfold fenced_block, code_fence.
    rewrite Hcode. cbn [default from_option id].
    rewrite Hclass, language_of_app by done. by rewrite !str_app_assoc. }
  split; [exact Hpre|].
  induction Hpath as [|n c Hn Hnn Htags Hin Hpath IH|n c Hn Hnn Htags Hin Hli Hpath IH].
  - rewrite Hpre. apply str_contains_app_r, str_contains_app_l, str_contains_refl.
  - eapply extract_through_child; eauto using code_fence_starts_solid, code_fence_ends_solid.
  - eapply extract_through_item; eauto using code_fence_starts_solid, code_fence_ends_solid.
Qed.

Lemma rendered_pre_is_tagged_fence_witness :
  rendered_through python_pre answer_with_code /\
  is_element python_pre = true /\ is_noise python_pre = false /\ tag_of python_pre = "pre" /\
  querySelector is_code python_pre = Some python_code /\
  className python_code = "hljs " +:+ "language-" +:+ "python" +:+ "" /\
  str_includes "hljs " "language-" = false /\
  "python" <> "" /\ word_run "python" = "python" /\ word_run "" = "" /\
  extractMarkdownFromElement python_pre
    = newline +:+ code_fence "python" (textContent python_code) +:+ newline +:+ newline /\
  str_contains (extractMarkdownFromElement answer_with_code)
    (code_fence "python" (textContent python_code)).
Proof.
  assert (rendered_through python_pre answer_with_code) as Hpath.
  { eapply rendered_child; [reflexivity..| |].
    { right. left. }
    eapply rendered_item; [reflexivity..| | |].
    { left. }
    { reflexivity. }
    eapply rendered_child; [reflexivity..| |].
    { left. }
    apply rendered_here. }
  split; [exact Hpath|]. do 6 (split; [reflexivity|]).
  split; [discriminate|]. do 2 (split; [reflexivity|]).
  exact (rendered_pre_is_tagged_fence answer_with_code python_pre python_code
           "hljs " "python" "" Hpath eq_refl eq_refl eq_refl eq_refl eq_refl eq_refl
           ltac:(discriminate) eq_refl eq_refl).
Defined.

(** * Further properties of the store *)

(** ** Fields of objects *)

Lemma get_set_field_eq k v o : get (set_field k v o) k = v.
Proof.
  unfold get. induction o as [|[k' v'] o IH]; cbn.
  - by rewrite String.eqb_refl.
  - destruct (String.eqb_spec k' k) as [->|Hne]; cbn.
    + by rewrite String.eqb_refl.
    + by destruct (String.eqb_spec k' k).
Qed.

Lemma get_set_field_ne k k' v o : k <> k' -> get (set_field k v o) k' = get o k'.
Proof.
  intros Hne. unfold get. induction o as [|[k0 v0] o IH]; cbn.
  - by destruct (String.eqb_spec k k').
  - destruct (String.eqb_spec k0 k) as [->|Hk]; cbn.
    + destruct (String.eqb_spec k k'); [done|]. done.
    + destruct (String.eqb_spec k0 k'); [done|]. exact IH.
Qed.

Lemma set_field_keys k v o :
  map fst (set_field k v o) = if bool_decide (k ∈ map fst o) then map fst o
                              else (map fst o ++ [k])%list.
Proof.
  induction o as [|[k' v'] o IH]; cbn; [done|].
  destruct (String.eqb_spec k' k) as [->|Hne]; cbn.
  - rewrite bool_decide_eq_true_2; [done|]. by left.
  - rewrite IH. destruct (bool_decide (k ∈ map fst o)) eqn:Hin.
    + apply bool_decide_eq_true in Hin. rewrite bool_decide_eq_true_2; [done|]. by right.
    + apply bool_decide_eq_false in Hin. rewrite bool_decide_eq_false_2; [done|].
      intros [?|?]%elem_of_cons; congruence.
Qed.

(** A key the assigned properties do not name keeps its value. *)
Lemma get_assign_absent o more k :
  k ∉ map fst more -> get (assign o more) k = get o k.
Proof.
  unfold assign. revert o. induction more as [|[k' v'] more IH]; intros o Hk; [done|].
  cbn [foldl]. rewrite IH.
  - apply get_set_field_ne. cbn. intros ->. apply Hk. by left.
  - intros Hin. apply Hk. by right.
Qed.

(** A key the assigned properties name once takes the value given there. *)
Lemma get_assign_present o more k v :
  NoDup (map fst more) -> (k, v) ∈ more -> get (assign o more) k = v.
Proof.
  unfold assign. revert o. induction more as [|[k' v'] more IH]; intros o Hnd Hin.
  { by inversion Hin. }
  cbn in Hnd. apply NoDup_cons in Hnd as [Hfresh Hnd].
  cbn [foldl]. apply elem_of_cons in Hin as [Heq|Hin].
  - injection Heq as <- <-.
    fold (assign (set_field k v o) more). rewrite get_assign_absent by done.
    apply get_set_field_eq.
  - by apply IH.
Qed.

Lemma strict_eq_refl_of a b : strict_eq a b = true -> strict_eq b b = true.
Proof.
  destruct a, b; cbn; try done; intros _;
    auto using Bool.eqb_reflx, Z.eqb_refl, String.eqb_refl.
Qed.

(** ** [findIndex] and [find] *)

Lemma findIndex_some {A} (p : A -> bool) l i :
  findIndex p l = Some i ->
  exists x, l !! i = Some x /\ p x = true /\
            forall j y, (j < i)%nat -> l !! j = Some y -> p y = false.
Proof.
  revert i. induction l as [|x l IH]; intros i; cbn; [done|].
  destruct (p x) eqn:Hx.
  - intros [= <-]. exists x. repeat split; [done|]. intros j y Hj. lia.
  - destruct (findIndex p l) as [i'|]; [|done]. cbn. intros [= <-].
    destruct (IH i' eq_refl) as (y & Hy & Hpy & Hbefore).
    exists y. repeat split; [done..|].
    intros [|j] z Hj; cbn; [by intros [= <-]|]. apply Hbefore. lia.
Qed.

Lemma findIndex_present {A} (p : A -> bool) l x :
  x ∈ l -> p x = true -> is_Some (findIndex p l).
Proof.
  induction l as [|y l IH]; intros Hin Hp; [by inversion Hin|]. cbn.
  destruct (p y) eqn:Hy; [by eexists|].
  inversion Hin; subst; [congruence|].
  destruct (IH ltac:(done) Hp) as [i ->]. by eexists.
Qed.

Lemma array_find_insert {A} (p : A -> bool) l i x :
  (i < length l)%nat -> p x = true ->
  (forall j y, (j < i)%nat -> l !! j = Some y -> p y = false) ->
  array_find p (<[i:=x]> l) = Some x.
Proof.
  unfold array_find. revert i. induction l as [|y l IH]; intros i Hi Hp Hbefore.
  { cbn in Hi. lia. }
  destruct i as [|i]; cbn.
  - by rewrite Hp.
  - rewrite (Hbefore 0%nat y) by (done || lia).
    apply IH; [cbn in Hi; lia|done|].
    intros j z Hj Hz. apply (Hbefore (S j)); [lia|done].
Qed.

Lemma array_find_filter_out {A} (p : A -> bool) l :
  array_find p (List.filter (fun x => negb (p x)) l) = None.
Proof.
  unfold array_find. induction l as [|x l IH]; cbn; [done|].
  destruct (p x) eqn:Hx; cbn; [done|]. by rewrite Hx.
Qed.

(** ** Running update and delete *)

(** The record [updateConversation] puts in place of [existing]. *)
Lemma updateConversation_run id updates w :
  updateConversation id updates w =
    match findIndex (fun conv => strict_eq (get conv "id") id) (visible w) with
    | None => (Throw (Error ("Conversation " +:+ to_display id +:+ " not found")), w)
    | Some index =>
        let existing := default [] (visible w !! index) in
        let merged :=
          set_field "modifiedAt" (VNum (clock w (clock_reads w)))
            (set_field "id" id (assign existing (own_props updates))) in
        ((if set_fails w then Throw BackendFailure else Ok merged),
         written (if set_fails w then slot_conversations w
                  else Some (<[index := merged]> (visible w))) 1 0 w)
    end.
Proof.
  unfold updateConversation, try_catch, bind. rewrite getAllConversations_run.
  destruct (findIndex _ _) as [index|]; [|done].
  destruct w as [sc ss gf sf calls clk reads rnd draws href].
  unfold date_now, storage_set_conversations, written, ret, throw.
  cbn -[visible set_field assign own_props].
  destruct sf; reflexivity.
Qed.

Lemma deleteConversation_run id w :
  deleteConversation id w =
    ((if set_fails w then Throw BackendFailure else Ok true),
     written (if set_fails w then slot_conversations w
              else Some (List.filter (fun conv => negb (strict_eq (get conv "id") id))
                                     (visible w))) 0 0 w).
Proof.
  unfold deleteConversation, try_catch, bind. rewrite getAllConversations_run.
  destruct w as [sc ss gf sf calls clk reads rnd draws href].
  unfold storage_set_conversations, written, ret, throw.
  cbn -[visible]. destruct sf; reflexivity.
Qed.

Lemma visible_written stored ticks draws w :
  get_fails w = false -> visible (written (Some stored) ticks draws w) = stored.
Proof. intros Hget. unfold visible, written. cbn. by rewrite Hget. Qed.

Lemma array_find_index {A} (p : A -> bool) l x :
  array_find p l = Some x -> exists i, findIndex p l = Some i /\ l !! i = Some x.
Proof.
  unfold array_find. induction l as [|y l IH]; cbn; [done|].
  destruct (p y); [intros [= <-]; by exists 0%nat|].
  intros Hfind. destruct (IH Hfind) as (i & -> & Hi). by exists (S i).
Qed.

(** ** Update *)

(** X1. On a working backend, updating a conversation that [getConversation]
    finds and then reading the id back yields the merged record: the id is
    the one asked for whatever the updates say, [modifiedAt] is the time of
    the update, a key the updates do not name keeps the stored value, and a
    key they name takes theirs. *)
Theorem update_then_get_returns_merged w id updates existing :
  get_fails w = false ->
  set_fails w = false ->
  getConversation id w = (Ok (Some existing), w) ->
  exists merged w1 w2,
    updateConversation id updates w = (Ok merged, w1) /\
    getConversation id w1 = (Ok (Some merged), w2) /\
    get merged "id" = id /\
    get merged "modifiedAt" = VNum (clock w (clock_reads w)) /\
    (forall k, k <> "id" -> k <> "modifiedAt" -> k ∉ map fst (own_props updates) ->
               get merged k = get existing k) /\
    (forall k v, k <> "id" -> k <> "modifiedAt" -> NoDup (map fst (own_props updates)) ->
                 (k, v) ∈ own_props updates -> get merged k = v).
Proof.
  intros Hget Hset Hfound.
  unfold getConversation, bind in Hfound. rewrite getAllConversations_run in Hfound.
  injection Hfound as Hfound.
  destruct (array_find_index _ _ _ Hfound) as (index & Hindex & Hexisting).
  destruct (findIndex_some _ _ _ Hindex) as (x & Hx & Hid & Hbefore).
  rewrite Hexisting in Hx. injection Hx as <-.
  rewrite updateConversation_run, Hindex, Hset, Hexisting.
  cbn [default from_option Datatypes.id].
  eexists _, _, _. split; [reflexivity|]. split.
  { unfold getConversation, bind. rewrite getAllConversations_run, visible_written by done.
    unfold ret. do 2 f_equal. apply array_find_insert.
    - by eapply lookup_lt_Some.
    - rewrite get_set_field_ne, get_set_field_eq by done. by eapply strict_eq_refl_of.
    - exact Hbefore. }
  split; [by rewrite get_set_field_ne, get_set_field_eq|].
  split; [by rewrite get_set_field_eq|]. split.
  - intros k Hk1 Hk2 Hk. rewrite !get_set_field_ne by done. by apply get_assign_absent.
  - intros k v Hk1 Hk2 Hnd Hin. rewrite !get_set_field_ne by done.
    by apply get_assign_present.
Qed.

Lemma update_then_get_returns_merged_witness :
  let w := world_with (Some (store_of "short")) in
  let existing := stored_record "conv_1000_plain" "short" 1000 false in
  get_fails w = false /\
  set_fails w = false /\
  getConversation (VStr "conv_1000_plain") w = (Ok (Some existing), w) /\
  exists merged w1 w2,
    updateConversation (VStr "conv_1000_plain")
      (VObj [("title", VStr "Renamed"); ("id", VStr "other")]) w = (Ok merged, w1) /\
    getConversation (VStr "conv_1000_plain") w1 = (Ok (Some merged), w2) /\
    get merged "id" = VStr "conv_1000_plain" /\
    get merged "modifiedAt" = VNum (clock w (clock_reads w)) /\
    (forall k, k <> "id" -> k <> "modifiedAt" ->
               k ∉ map fst (own_props (VObj [("title", VStr "Renamed"); ("id", VStr "other")])) ->
               get merged k = get existing k) /\
    (forall k v, k <> "id" -> k <> "modifiedAt" ->
                 NoDup (map fst (own_props (VObj [("title", VStr "Renamed");
                                                  ("id", VStr "other")]))) ->
                 (k, v) ∈ own_props (VObj [("title", VStr "Renamed"); ("id", VStr "other")]) ->
                 get merged k = v).
Proof.
  intros w existing.
  split; [reflexivity|]. split; [reflexivity|]. split; [reflexivity|].
  exact (update_then_get_returns_merged w (VStr "conv_1000_plain") _ existing
           eq_refl eq_refl eq_refl).
Defined.

(** X2. An update that finds its record writes once, a list of the same
    length in which every other position holds what it held. *)
Theorem update_leaves_other_records w id updates existing :
  set_fails w = false ->
  getConversation id w = (Ok (Some existing), w) ->
  exists merged w1 index stored,
    updateConversation id updates w = (Ok merged, w1) /\
    slot_conversations w1 = Some stored /\
    set_calls w1 = S (set_calls w) /\
    length stored = length (visible w) /\
    visible w !! index = Some existing /\
    stored !! index = Some merged /\
    forall j, j <> index -> stored !! j = visible w !! j.
Proof.
  intros Hset Hfound.
  unfold getConversation, bind in Hfound. rewrite getAllConversations_run in Hfound.
  injection Hfound as Hfound.
  destruct (array_find_index _ _ _ Hfound) as (index & Hindex & Hexisting).
  rewrite updateConversation_run, Hindex, Hset, Hexisting.
  cbn [default from_option Datatypes.id].
  eexists _, _, index, _. split; [reflexivity|]. split; [reflexivity|].
  split; [reflexivity|]. split; [apply length_insert|]. split; [done|]. split.
  - apply list_lookup_insert_eq. by eapply lookup_lt_Some.
  - intros j Hj. by apply list_lookup_insert_ne.
Qed.

Lemma update_leaves_other_records_witness :
  let w := world_with (Some (store_of "short")) in
  let existing := stored_record "conv_1000_plain" "short" 1000 false in
  set_fails w = false /\
  getConversation (VStr "conv_1000_plain") w = (Ok (Some existing), w) /\
  exists merged w1 index stored,
    updateConversation (VStr "conv_1000_plain") (VObj [("isFavorite", VBool true)]) w
      = (Ok merged, w1) /\
    slot_conversations w1 = Some stored /\
    set_calls w1 = S (set_calls w) /\
    length stored = length (visible w) /\
    visible w !! index = Some existing /\
    stored !! index = Some merged /\
    forall j, j <> index -> stored !! j = visible w !! j.
Proof.
  intros w existing. split; [reflexivity|]. split; [reflexivity|].
  exact (update_leaves_other_records w (VStr "conv_1000_plain") _ existing eq_refl eq_refl).
Defined.

(** ** Delete *)

Lemma filter_all_true {A} (p : A -> bool) l :
  (forall x, x ∈ l -> p x = true) -> List.filter p l = l.
Proof.
  induction l as [|x l IH]; intros Hall; cbn; [done|].
  rewrite (Hall x) by left. f_equal. apply IH. intros y Hy. apply Hall. by right.
Qed.

(** X3. On a working backend, after [deleteConversation(id)] the id is not
    found any more, and the store holds the other conversations, in the
    order they had. *)
Theorem delete_then_get_finds_nothing w id :
  get_fails w = false ->
  set_fails w = false ->
  exists w1 w2,
    deleteConversation id w = (Ok true, w1) /\
    getConversation id w1 = (Ok None, w2) /\
    slot_conversations w1
      = Some (List.filter (fun conv => negb (has_id id conv)) (visible w)).
Proof.
  intros Hget Hset. rewrite deleteConversation_run, Hset.
  eexists _, _. split; [reflexivity|]. split; [|reflexivity].
  unfold getConversation, bind. rewrite getAllConversations_run, visible_written by done.
  unfold ret. do 2 f_equal. apply array_find_filter_out.
Qed.

Lemma delete_then_get_finds_nothing_witness :
  let w := world_with (Some (store_of "short")) in
  get_fails w = false /\
  set_fails w = false /\
  exists w1 w2,
    deleteConversation (VStr "conv_500_starred") w = (Ok true, w1) /\
    getConversation (VStr "conv_500_starred") w1 = (Ok None, w2) /\
    slot_conversations w1
      = Some (List.filter (fun conv => negb (has_id (VStr "conv_500_starred") conv))
                          (visible w)).
Proof.
  intros w. split; [reflexivity|]. split; [reflexivity|].
  exact (delete_then_get_finds_nothing w (VStr "conv_500_starred") eq_refl eq_refl).
Defined.

(** X4. Deleting an id that no stored conversation carries is no error: on
    a working backend the call returns [true] and writes the list back, once,
    as it was. *)
Theorem delete_absent_id_keeps_store w id :
  get_fails w = false ->
  set_fails w = false ->
  (forall conv, conv ∈ visible w -> has_id id conv = false) ->
  exists w1,
    deleteConversation id w = (Ok true, w1) /\
    slot_conversations w1 = Some (visible w) /\
    set_calls w1 = S (set_calls w).
Proof.
  intros Hget Hset Habsent. rewrite deleteConversation_run, Hset.
  eexists. split; [reflexivity|]. split; [|reflexivity].
  cbn [written slot_conversations]. f_equal. apply filter_all_true.
  intros conv Hconv. unfold has_id in Habsent. by rewrite Habsent.
Qed.

Lemma delete_absent_id_keeps_store_witness :
  let w := world_with (Some (store_of "short")) in
  get_fails w = false /\
  set_fails w = false /\
  (forall conv, conv ∈ visible w -> has_id (VStr "conv_9_gone") conv = false) /\
  exists w1,
    deleteConversation (VStr "conv_9_gone") w = (Ok true, w1) /\
    slot_conversations w1 = Some (visible w) /\
    set_calls w1 = S (set_calls w).
Proof.
  intros w.
  assert (forall conv, conv ∈ visible w -> has_id (VStr "conv_9_gone") conv = false)
    as Habsent.
  { intros conv Hin. apply list_elem_of_In in Hin.
    destruct Hin as [<-|[<-|[]]]; reflexivity. }
  split; [reflexivity|]. split; [reflexivity|]. split; [exact Habsent|].
  exact (delete_absent_id_keeps_store w (VStr "conv_9_gone") eq_refl eq_refl Habsent).
Defined.

(** ** Batch delete *)

Lemma strict_eq_sym a b : strict_eq a b = strict_eq b a.
Proof.
  destruct a, b; cbn; try done.
  - by destruct b, b0.
  - apply Z.eqb_sym.
  - apply String.eqb_sym.
Qed.

Lemma filter_m_total {A} (p : A -> bool) l :
  filter_m (fun x => Some (p x)) l = Some (List.filter p l).
Proof.
  induction l as [|x l IH]; cbn; [done|]. rewrite IH. by destruct (p x).
Qed.

Lemma deleteConversations_run ids w :
  deleteConversations (VArr ids) w =
    ((if set_fails w then Throw BackendFailure else Ok true),
     written (if set_fails w then slot_conversations w
              else Some (List.filter (fun conv => negb (includes ids (get conv "id")))
                                     (visible w))) 0 0 w).
Proof.
  unfold deleteConversations, try_catch, bind. rewrite getAllConversations_run.
  cbn [ids_include fmap option_fmap option_map].
  rewrite (filter_m_total (fun conv => negb (includes ids (get conv "id")))).
  destruct w as [sc ss gf sf calls clk reads rnd draws href].
  unfold when_some, storage_set_conversations, written, ret, throw.
  cbn -[visible]. destruct sf; reflexivity.
Qed.

Lemma filter_filter_and {A} (p q : A -> bool) l :
  List.filter q (List.filter p l) = List.filter (fun x => p x && q x) l.
Proof.
  induction l as [|x l IH]; cbn; [done|].
  destruct (p x); cbn; [|done]. destruct (q x); by rewrite IH.
Qed.

Lemma delete_each_run ids w :
  get_fails w = false ->
  set_fails w = false ->
  exists w2,
    each (map deleteConversation ids) w = (Ok tt, w2) /\
    get_fails w2 = false /\ set_fails w2 = false /\
    visible w2 = List.filter (fun conv => negb (includes ids (get conv "id"))) (visible w).
Proof.
  revert w. induction ids as [|id ids IH]; intros w Hget Hset.
  - exists w. repeat split; [done..|]. symmetry. by apply filter_all_true.
  - cbn [map each]. unfold bind. rewrite deleteConversation_run, Hset.
    destruct (IH (written (Some (List.filter
                (fun conv => negb (strict_eq (get conv "id") id)) (visible w))) 0 0 w))
      as (w2 & Hrun & Hget2 & Hset2 & Hvisible); [done..|].
    exists w2. rewrite Hrun. repeat split; [done..|].
    rewrite Hvisible, visible_written, filter_filter_and by done.
    apply filter_ext. intros conv. cbn [includes existsb].
    by rewrite negb_orb, (strict_eq_sym id).
Qed.

(** X5. On a working backend, deleting a batch of ids leaves the store
    holding the same list as deleting those ids one call at a time. *)
Theorem delete_batch_is_delete_each w ids :
  get_fails w = false ->
  set_fails w = false ->
  exists w1 w2,
    deleteConversations (VArr ids) w = (Ok true, w1) /\
    each (map deleteConversation ids) w = (Ok tt, w2) /\
    visible w1 = visible w2.
Proof.
  intros Hget Hset.
  destruct (delete_each_run ids w Hget Hset) as (w2 & Hrun & _ & _ & Hvisible).
  rewrite deleteConversations_run, Hset.
  eexists _, w2. split; [reflexivity|]. split; [done|].
  by rewrite visible_written, Hvisible.
Qed.

Lemma delete_batch_is_delete_each_witness :
  let w := world_with (Some (store_of "short")) in
  let ids := [VStr "conv_500_starred"; VStr "conv_9_gone"] in
  get_fails w = false /\
  set_fails w = false /\
  exists w1 w2,
    deleteConversations (VArr ids) w = (Ok true, w1) /\
    each (map deleteConversation ids) w = (Ok tt, w2) /\
    visible w1 = visible w2.
Proof.
  intros w ids. split; [reflexivity|]. split; [reflexivity|].
  exact (delete_batch_is_delete_each w ids eq_refl eq_refl).
Defined.

(** A batch that is not an array is refused only once a record is looked
    at; [null] on an empty store is written through before the log line
    throws. *)
Example delete_batch_null_on_empty_store :
  (deleteConversations VNull quiet_world).1 = Throw (TypeError "Cannot read properties") /\
  slot_conversations (deleteConversations VNull quiet_world).2 = Some [] /\
  (deleteConversations VNull (world_with (Some (store_of "short")))).1
    = Throw (TypeError "not a function").
Proof. vm_compute. done. Qed.

(** ** More on save *)

Lemma new_record_dated data w : dated (new_record data w).
Proof. unfold dated, timestamp_of. rewrite new_record_timestamp. by eexists. Qed.

(** X6. What a save writes when every stored timestamp is a number. No
    stored conversation is dropped and none is written twice. While the
    serialized list with the new record stays at or below 90% of the
    ceiling, the list written is the stored one, in its order, with the
    new record at the end. Above that it is the same conversations ordered
    newest first, those of one timestamp in the order they had. *)
Theorem save_writes_appended_or_sorted data w :
  nullish data = false ->
  set_fails w = false ->
  Forall dated (visible w) ->
  exists record w' written,
    saveConversation data w = (Ok record, w') /\
    slot_conversations w' = Some written /\
    written ≡ₚ (visible w ++ [record])%list /\
    (usage_above_90 (serialized_size (visible w ++ [record])%list) = false ->
     written = (visible w ++ [record])%list) /\
    (usage_above_90 (serialized_size (visible w ++ [record])%list) = true ->
     StronglySorted not_older written /\
     forall t,
       List.filter (fun c => bool_decide (timestamp_of c = Some t)) written
       = List.filter (fun c => bool_decide (timestamp_of c = Some t))
                     (visible w ++ [record])%list).
Proof.
  intros Hdata Hset Hdated. rewrite saveConversation_run, Hset by done.
  eexists _, _, _. split; [reflexivity|]. split; [reflexivity|].
  split; [apply save_payload_perm|].
  unfold save_payload, checkAndCleanupStorage.
  destruct (usage_above_90 _); (split; [|done || intros _]); try done.
  assert (Forall dated (visible w ++ [new_record data w])%list) as Hall.
  { apply Forall_app. split; [done|]. repeat constructor. apply new_record_dated. }
  destruct (0 <? _)%nat; cbn [fst]; (split; [by apply array_sort_sorted|]);
    intros t; apply array_sort_stable.
Qed.

Lemma save_writes_appended_or_sorted_witness :
  nullish sample_data = false /\
  set_fails crowded_world = false /\
  Forall dated (visible crowded_world) /\
  exists record w' written,
    saveConversation sample_data crowded_world = (Ok record, w') /\
    slot_conversations w' = Some written /\
    written ≡ₚ (visible crowded_world ++ [record])%list /\
    (usage_above_90 (serialized_size (visible crowded_world ++ [record])%list) = false ->
     written = (visible crowded_world ++ [record])%list) /\
    (usage_above_90 (serialized_size (visible crowded_world ++ [record])%list) = true ->
     StronglySorted not_older written /\
     forall t,
       List.filter (fun c => bool_decide (timestamp_of c = Some t)) written
       = List.filter (fun c => bool_decide (timestamp_of c = Some t))
                     (visible crowded_world ++ [record])%list).
Proof.
  assert (Forall dated (visible crowded_world)) as Hdated.
  { rewrite crowded_visible. repeat constructor; by eexists. }
  split; [reflexivity|]. split; [reflexivity|]. split; [exact Hdated|].
  exact (save_writes_appended_or_sorted sample_data crowded_world eq_refl eq_refl Hdated).
Defined.

Lemma findDuplicate_run conversationId w :
  findDuplicate conversationId w =
    (Ok (if truthy conversationId
         then array_find (fun conv => strict_eq (get conv "conversationId") conversationId)
                         (visible w)
         else None), w).
Proof.
  unfold findDuplicate. destruct (truthy conversationId); cbn [negb]; [|done].
  unfold bind. by rewrite getAllConversations_run.
Qed.

Lemma array_find_present {A} (p : A -> bool) l x :
  x ∈ l -> p x = true -> exists y, array_find p l = Some y /\ y ∈ l /\ p y = true.
Proof.
  unfold array_find. induction l as [|z l IH]; intros Hin Hp; [by inversion Hin|]. cbn.
  destruct (p z) eqn:Hz.
  - exists z. repeat split; [left|done].
  - inversion Hin; subst; [congruence|].
    destruct (IH ltac:(done) Hp) as (y & Hy & Hyl & Hpy).
    exists y. repeat split; [done|by right|done].
Qed.

(** X7. The duplicate check sees what was saved: on a working backend,
    after saving an input whose [conversationId] is a non-empty string,
    [findDuplicate] of that string returns a stored conversation carrying
    it; when no stored conversation carried it before, the one returned is
    the record just saved. *)
Theorem save_then_findDuplicate_finds fields w s :
  get_fails w = false ->
  set_fails w = false ->
  get fields "conversationId" = VStr s ->
  s <> "" ->
  exists record w1 found,
    saveConversation (VObj fields) w = (Ok record, w1) /\
    findDuplicate (VStr s) w1 = (Ok (Some found), w1) /\
    get found "conversationId" = VStr s /\
    ((forall conv, conv ∈ visible w -> get conv "conversationId" <> VStr s) ->
     found = record).
Proof.
  intros Hget Hset Hid Hne.
  rewrite saveConversation_run, Hset by done.
  set (record := new_record (VObj fields) w).
  set (w1 := written _ 2 1 w).
  assert (get record "conversationId" = VStr s) as Hrecord.
  { unfold record. rewrite new_record_copied by (unfold copied_fields; set_solver).
    cbn [prop]. rewrite Hid. unfold js_or. cbn. by destruct (String.eqb_spec s ""). }
  assert (visible w1 ≡ₚ (visible w ++ [record])%list) as Hperm.
  { unfold w1. rewrite visible_written by done. apply save_payload_perm. }
  destruct (array_find_present
              (fun conv => strict_eq (get conv "conversationId") (VStr s))
              (visible w1) record) as (found & Hfound & Hin & Hmatch).
  { rewrite Hperm. apply elem_of_app. right. by left. }
  { rewrite Hrecord. cbn. apply String.eqb_refl. }
  exists record, w1, found. split; [done|]. split.
  { rewrite findDuplicate_run. cbn [truthy]. destruct (String.eqb_spec s ""); [done|].
    cbn [negb]. by rewrite Hfound. }
  assert (get found "conversationId" = VStr s) as Hfid.
  { destruct (get found "conversationId"); cbn in Hmatch; try done.
    by apply String.eqb_eq in Hmatch as ->. }
  split; [done|]. intros Hnone.
  rewrite Hperm in Hin. apply elem_of_app in Hin as [Hold|Hnew].
  - by destruct (Hnone found Hold).
  - by apply list_elem_of_singleton in Hnew.
Qed.

Lemma save_then_findDuplicate_finds_witness :
  let fields := [("title", VStr "Third"); ("conversationId", VStr "13")] in
  let w := world_with (Some (store_of "short")) in
  get_fails w = false /\
  set_fails w = false /\
  get fields "conversationId" = VStr "13" /\
  "13" <> "" /\
  exists record w1 found,
    saveConversation (VObj fields) w = (Ok record, w1) /\
    findDuplicate (VStr "13") w1 = (Ok (Some found), w1) /\
    get found "conversationId" = VStr "13" /\
    ((forall conv, conv ∈ visible w -> get conv "conversationId" <> VStr "13") ->
     found = record).
Proof.
  intros fields w. split; [reflexivity|]. split; [reflexivity|]. split; [reflexivity|].
  split; [discriminate|].
  exact (save_then_findDuplicate_finds fields w "13" eq_refl eq_refl eq_refl
           ltac:(discriminate)).
Defined.

(** ** Import *)

Lemma import_one_accounts mergeStrategy results convData w :
  nullish convData = false ->
  exists results' w',
    import_one mergeStrategy results convData w = (Ok results', w') /\
    accounted results' = S (accounted results).
Proof.
  intros Hrecord. unfold import_one, try_catch, bind. rewrite Hrecord.
  rewrite findDuplicate_run.
  assert (forall w0, exists results' w',
    (let (o, w') :=
       let (o, w') := saveConversation convData w0 in
       match o with
       | Ok _ => ret (ImportResults (S (imported results)) (skipped results)
                                    (updated results) (errors results)) w'
       | Throw e => (Throw e, w')
       end in
     match o with
     | Ok a => (Ok a, w')
     | Throw e =>
         ret (ImportResults (imported results) (skipped results) (updated results)
                (errors results ++ [(prop convData "title", message_of e)])%list) w'
     end) = (Ok results', w') /\ accounted results' = S (accounted results)) as Hinsert.
  { intros w0. rewrite saveConversation_run by done.
    destruct (set_fails w0); eexists _, _; (split; [reflexivity|]);
      unfold accounted; cbn; rewrite ?length_app; cbn; lia. }
  destruct (if truthy _ then _ else _) as [dup|]; [|apply Hinsert].
  destruct (String.eqb mergeStrategy "skip").
  { eexists _, _. split; [reflexivity|]. unfold accounted. cbn. lia. }
  destruct (String.eqb mergeStrategy "update"); [|apply Hinsert].
  destruct (updateConversation (get dup "id") convData w) as [[merged|e] w'];
    eexists _, _; (split; [reflexivity|]);
    unfold accounted; cbn; rewrite ?length_app; cbn; lia.
Qed.

Lemma import_all_accounts mergeStrategy records :
  Forall (fun r => nullish r = false) records ->
  forall results w,
  exists results' w',
    import_all mergeStrategy results records w = (Ok results', w') /\
    accounted results' = (accounted results + length records)%nat.
Proof.
  induction 1 as [|r records Hr Hrecords IH]; intros results w.
  - exists results, w. split; [done|]. cbn. lia.
  - cbn [import_all]. unfold bind.
    destruct (import_one_accounts mergeStrategy results r w Hr) as (r1 & w1 & -> & H1).
    destruct (IH r1 w1) as (r2 & w2 & -> & H2).
    exists r2, w2. split; [done|]. cbn [length]. lia.
Qed.

(** X8. An import of a bundle whose records are not [null] always returns,
    whatever the backend does, and accounts for every record once:
    imported, skipped, updated and failed records add up to the size of the
    bundle. *)
Theorem import_accounts_for_every_record data mergeStrategy records w :
  truthy data = true ->
  prop data "conversations" = VArr records ->
  Forall (fun r => nullish r = false) records ->
  exists results w',
    importData data mergeStrategy w = (Ok results, w') /\
    (imported results + skipped results + updated results + length (errors results)
     = length records)%nat.
Proof.
  intros Hdata Hrecords Hclean. unfold importData, try_catch, bind.
  rewrite Hdata, Hrecords, getAllConversations_run.
  destruct (import_all_accounts mergeStrategy records Hclean (ImportResults 0 0 0 []) w)
    as (results & w' & -> & Hsum).
  exists results, w'. split; [done|]. exact Hsum.
Qed.

Lemma import_accounts_for_every_record_witness :
  let w := world_with (Some (store_of "short")) in
  let records := [incoming "First" "11"; incoming "Second" "7"; incoming "Third" "13"] in
  truthy three_bundle = true /\
  prop three_bundle "conversations" = VArr records /\
  Forall (fun r => nullish r = false) records /\
  exists results w',
    importData three_bundle "update" w = (Ok results, w') /\
    (imported results + skipped results + updated results + length (errors results)
     = length records)%nat.
Proof.
  intros w records.
  assert (Forall (fun r => nullish r = false) records) as Hclean.
  { repeat constructor. }
  split; [reflexivity|]. split; [reflexivity|]. split; [exact Hclean|].
  exact (import_accounts_for_every_record three_bundle "update" records w
           eq_refl eq_refl Hclean).
Defined.

(** A [null] among the records stops the import where it stands: the records
    before it stay imported and the call throws. *)
Example import_stops_at_null :
  let bundle := VObj [("conversations", VArr [incoming "First" "11"; VNull;
                                               incoming "Third" "13"])] in
  (importData bundle "skip" quiet_world).1 = Throw (TypeError "Cannot read properties") /\
  length <$> slot_conversations (importData bundle "skip" quiet_world).2 = Some 1%nat.
Proof. vm_compute. done. Qed.

Lemma import_one_skip_grows results convData w :
  get_fails w = false ->
  nullish convData = false ->
  exists results' w',
    import_one "skip" results convData w = (Ok results', w') /\
    get_fails w' = false /\
    ((visible w' = visible w /\ imported results' = imported results) \/
     (exists record, visible w' ≡ₚ (visible w ++ [record])%list /\
                     imported results' = S (imported results))).
Proof.
  intros Hget Hrecord. unfold import_one, try_catch, bind. rewrite Hrecord.
  rewrite findDuplicate_run.
  destruct (if truthy _ then _ else _) as [dup|].
  { cbn [String.eqb Ascii.eqb Bool.eqb]. eexists _, _. split; [reflexivity|].
    split; [done|]. by left. }
  rewrite saveConversation_run by done.
  destruct (set_fails w) eqn:Hset; eexists _, _; (split; [reflexivity|]).
  - split; [done|]. left. split; [|done].
    unfold visible, written. cbn. by rewrite Hget.
  - split; [done|]. right. eexists. split; [|done].
    rewrite visible_written by done. apply save_payload_perm.
Qed.

Lemma import_all_skip_grows records :
  Forall (fun r => nullish r = false) records ->
  forall results w,
  get_fails w = false ->
  exists results' w' added,
    import_all "skip" results records w = (Ok results', w') /\
    visible w' ≡ₚ (visible w ++ added)%list /\
    imported results' = (imported results + length added)%nat.
Proof.
  induction 1 as [|r records Hr Hrecords IH]; intros results w Hget.
  - exists results, w, []. split; [done|]. rewrite app_nil_r. split; [done|]. cbn. lia.
  - cbn [import_all]. unfold bind.
    destruct (import_one_skip_grows results r w Hget Hr)
      as (r1 & w1 & -> & Hget1 & Hstep).
    destruct (IH r1 w1 Hget1) as (r2 & w2 & added & -> & Hperm & Hcount).
    destruct Hstep as [[Hsame Hn]|(record & Hgrown & Hn)].
    + exists r2, w2, added. split; [done|]. rewrite Hperm, Hsame. split; [done|]. lia.
    + exists r2, w2, (record :: added). split; [done|]. split.
      * rewrite Hperm, Hgrown, <- app_assoc. done.
      * cbn [length]. lia.
Qed.

(** X9. An import with strategy [skip], on a backend whose reads succeed,
    keeps every conversation that was stored, and the store grows by
    exactly the number of records reported as imported. *)
Theorem import_skip_keeps_store data records w :
  get_fails w = false ->
  truthy data = true ->
  prop data "conversations" = VArr records ->
  Forall (fun r => nullish r = false) records ->
  exists results w',
    importData data "skip" w = (Ok results, w') /\
    (forall conv, conv ∈ visible w -> conv ∈ visible w') /\
    length (visible w') = (length (visible w) + imported results)%nat.
Proof.
  intros Hget Hdata Hrecords Hclean. unfold importData, try_catch, bind.
  rewrite Hdata, Hrecords, getAllConversations_run.
  destruct (import_all_skip_grows records Hclean (ImportResults 0 0 0 []) w Hget)
    as (results & w' & added & -> & Hperm & Hcount).
  exists results, w'. split; [done|]. split.
  - intros conv Hconv. rewrite Hperm. apply elem_of_app. by left.
  - rewrite Hperm, length_app, Hcount. cbn. lia.
Qed.

Lemma import_skip_keeps_store_witness :
  let w := world_with (Some (store_of "short")) in
  let records := [incoming "First" "11"; incoming "Second" "7"; incoming "Third" "13"] in
  get_fails w = false /\
  truthy three_bundle = true /\
  prop three_bundle "conversations" = VArr records /\
  Forall (fun r => nullish r = false) records /\
  exists results w',
    importData three_bundle "skip" w = (Ok results, w') /\
    (forall conv, conv ∈ visible w -> conv ∈ visible w') /\
    length (visible w') = (length (visible w) + imported results)%nat.
Proof.
  intros w records.
  assert (Forall (fun r => nullish r = false) records) as Hclean.
  { repeat constructor. }
  split; [reflexivity|]. split; [reflexivity|]. split; [reflexivity|].
  split; [exact Hclean|].
  exact (import_skip_keeps_store three_bundle records w eq_refl eq_refl eq_refl Hclean).
Defined.

(** ** Settings *)

Lemma set_field_keys_incl k v o k' :
  k' ∈ map fst (set_field k v o) <-> k' = k \/ k' ∈ map fst o.
Proof.
  rewrite set_field_keys. case_bool_decide as Hin.
  - split; [by right|]. by intros [->|?].
  - rewrite elem_of_app, list_elem_of_singleton. tauto.
Qed.

Lemma set_field_keys_NoDup k v o : NoDup (map fst o) -> NoDup (map fst (set_field k v o)).
Proof.
  intros Hnd. rewrite set_field_keys. case_bool_decide as Hin; [done|].
  apply NoDup_app. repeat split; [done| |apply NoDup_singleton].
  intros x Hx ->%list_elem_of_singleton. done.
Qed.

Lemma assign_keys o more k :
  k ∈ map fst (assign o more) <-> k ∈ map fst o \/ k ∈ map fst more.
Proof.
  unfold assign. revert o. induction more as [|[k' v'] more IH]; intros o; cbn [foldl].
  - cbn. rewrite elem_of_nil. tauto.
  - rewrite IH, set_field_keys_incl. cbn [map fst]. rewrite elem_of_cons. tauto.
Qed.

Lemma assign_keys_NoDup o more : NoDup (map fst o) -> NoDup (map fst (assign o more)).
Proof.
  unfold assign. revert o. induction more as [|[k' v'] more IH]; intros o Hnd; [done|].
  cbn [foldl]. by apply IH, set_field_keys_NoDup.
Qed.

Lemma get_member (o : obj) k v : NoDup (map fst o) -> (k, v) ∈ o -> get o k = v.
Proof.
  unfold get. induction o as [|[k' v'] o IH]; intros Hnd Hin; [by inversion Hin|].
  cbn in Hnd. apply NoDup_cons in Hnd as [Hfresh Hnd]. cbn.
  apply elem_of_cons in Hin as [[= -> ->]|Hin].
  - by rewrite String.eqb_refl.
  - destruct (String.eqb_spec k' k) as [->|Hne]; [|by apply IH].
    exfalso. apply Hfresh. apply list_elem_of_fmap. by exists (k, v).
Qed.

Lemma get_absent (o : obj) k : k ∉ map fst o -> get o k = VUndefined.
Proof. intros Hk. unfold get. by rewrite lookup_field_absent. Qed.

(** Assigning onto the defaults an object that was itself built on the
    defaults reads like that object. *)
Lemma get_assign_twice defaults more k :
  NoDup (map fst defaults) ->
  get (assign defaults (assign defaults more)) k = get (assign defaults more) k.
Proof.
  intros Hnd. set (settings := assign defaults more).
  destruct (decide (k ∈ map fst settings)) as [Hin|Hout].
  - apply list_elem_of_fmap in Hin as ([k' v] & -> & Hin). cbn.
    assert (NoDup (map fst settings)) as Hnd' by by apply assign_keys_NoDup.
    rewrite (get_assign_present _ _ k' v), (get_member settings k' v); done.
  - rewrite get_assign_absent by done.
    rewrite (get_absent settings) by done. apply get_absent.
    intros Hk. apply Hout, assign_keys. by left.
Qed.

Lemma saveSettings_run settings w :
  saveSettings settings w =
    ((if set_fails w then Throw BackendFailure else Ok true),
     World (slot_conversations w)
           (if set_fails w then slot_settings w
            else Some (assign DEFAULT_SETTINGS (own_props settings)))
           (get_fails w) (set_fails w) (S (set_calls w)) (clock w) (clock_reads w)
           (random w) (random_reads w) (location_href w)).
Proof.
  unfold saveSettings, try_catch, bind, storage_set_settings, ret, throw.
  destruct (set_fails w); reflexivity.
Qed.

Lemma getSettings_run w :
  getSettings w =
    (Ok (if get_fails w then DEFAULT_SETTINGS
         else assign DEFAULT_SETTINGS (default [] (slot_settings w))), w).
Proof.
  unfold getSettings, try_catch, bind, storage_get_settings, ret.
  destruct (get_fails w); reflexivity.
Qed.

(** X10. Settings survive the round trip through the defaults: on a working
    backend, after [saveSettings(settings)] a call of [getSettings] returns
    an object in which every key of [settings] holds the value given and
    every other key holds its default, so the three default keys are always
    there. *)
Theorem saved_settings_read_back settings w :
  get_fails w = false ->
  set_fails w = false ->
  exists w1 read,
    saveSettings settings w = (Ok true, w1) /\
    getSettings w1 = (Ok read, w1) /\
    (forall k v, NoDup (map fst (own_props settings)) -> (k, v) ∈ own_props settings ->
                 get read k = v) /\
    (forall k, k ∉ map fst (own_props settings) -> get read k = get DEFAULT_SETTINGS k) /\
    (forall k, k ∈ map fst DEFAULT_SETTINGS -> k ∈ map fst read).
Proof.
  intros Hget Hset. rewrite saveSettings_run, Hset.
  eexists _, _. split; [reflexivity|]. split.
  { rewrite getSettings_run. cbn [get_fails slot_settings]. rewrite Hget. reflexivity. }
  cbn [default from_option Datatypes.id].
  assert (NoDup (map fst DEFAULT_SETTINGS)) as Hnd.
  { by apply (bool_decide_unpack _). }
  split; [|split].
  - intros k v Hkeys Hin. rewrite get_assign_twice by done. by apply get_assign_present.
  - intros k Hk. rewrite get_assign_twice by done. by apply get_assign_absent.
  - intros k Hk. apply assign_keys. by left.
Qed.

Lemma saved_settings_read_back_witness :
  let settings := VObj [("exportFormat", VStr "json"); ("theme", VStr "dark")] in
  get_fails quiet_world = false /\
  set_fails quiet_world = false /\
  exists w1 read,
    saveSettings settings quiet_world = (Ok true, w1) /\
    getSettings w1 = (Ok read, w1) /\
    (forall k v, NoDup (map fst (own_props settings)) -> (k, v) ∈ own_props settings ->
                 get read k = v) /\
    (forall k, k ∉ map fst (own_props settings) -> get read k = get DEFAULT_SETTINGS k) /\
    (forall k, k ∈ map fst DEFAULT_SETTINGS -> k ∈ map fst read).
Proof.
  intros settings. split; [reflexivity|]. split; [reflexivity|].
  exact (saved_settings_read_back settings quiet_world eq_refl eq_refl).
Defined.

Example settings_sample :
  (getSettings (saveSettings (VObj [("exportFormat", VStr "json"); ("theme", VStr "dark")])
                             quiet_world).2).1
  = Ok [ ("autoSave", VBool false); ("exportFormat", VStr "json");
         ("maxConversations", VNum 200); ("theme", VStr "dark") ].
Proof. vm_compute. reflexivity. Qed.

(** ** Tags *)

Section SortBy.
Context {A : Type} (before : A -> A -> bool) (P : A -> Prop).
Hypothesis before_total : forall x y, P x -> P y -> before x y = false -> before y x = true.
Hypothesis before_trans :
  forall x y z, P x -> P y -> P z -> before x y = true -> before y z = true ->
                before x z = true.




End SortBy.







Example getAllTags_sample :
  (getAllTags tagged_world).1 = Ok [VStr "js"; VStr "proofs"; VStr "rocq"].
Proof. vm_compute. reflexivity. Qed.

(** ** Search with criteria *)

Lemma filter_sublist {A} (p : A -> bool) l : sublist (List.filter p l) l.
Proof.
  induction l as [|x l IH]; cbn; [constructor|].
  destruct (p x); by constructor.
Qed.

Lemma filter_m_some {A} (p : A -> option bool) l r :
  filter_m p l = Some r ->
  sublist r l /\ forall c, c ∈ r <-> c ∈ l /\ p c = Some true.
Proof.
  revert r. induction l as [|x l IH]; cbn; intros r.
  { intros [= <-]. split; [constructor|]. intros c. rewrite elem_of_nil. tauto. }
  destruct (p x) as [keep|] eqn:Hx; [|done].
  destruct (filter_m p l) as [r'|]; [|done]. intros [= <-].
  destruct (IH r' eq_refl) as [Hsub Hin]. destruct keep.
  - split; [by constructor|]. intros c. rewrite !elem_of_cons, Hin.
    split; [intros [->|[? ?]]; split; auto|intros [[->|?] ?]; auto].
  - split; [by constructor|]. intros c. rewrite elem_of_cons, Hin.
    split; [intros [? ?]; auto|]. intros [[->|?] ?]; [congruence|auto].
Qed.

Lemma filter_member {A} (p : A -> bool) l c : c ∈ List.filter p l <-> c ∈ l /\ p c = true.
Proof. by rewrite !list_elem_of_In, filter_In. Qed.

(** One optional filter of [searchConversations]. *)
Lemma filter_when {A} (active : bool) (p : A -> bool) l :
  let r := if active then List.filter p l else l in
  sublist r l /\ forall c, c ∈ r <-> c ∈ l /\ (active = true -> p c = true).
Proof.
  destruct active; cbn.
  - split; [apply filter_sublist|]. intros c. rewrite filter_member.
    split; [by intros [? ?]|]. intros [? Hp]. auto.
  - split; [done|]. intros c. split; [|by intros [? _]].
    intros Hc. split; [done|discriminate].
Qed.

Lemma searchConversations_run query filters w :
  searchConversations query filters w =
    (match query_stage query (visible w) with
     | None => Throw (TypeError "not a function")
     | Some r1 =>
         match tags_stage filters (plain_filters filters r1) with
         | None => Throw (TypeError "not a function")
         | Some r6 => Ok (array_sort by_timestamp_desc r6)
         end
     end, w).
Proof.
  unfold searchConversations, bind. rewrite getAllConversations_run.
  unfold query_stage, tags_stage, plain_filters, when_some, ret, throw.
  destruct (truthy (VStr query) && truthy (VStr (trim query)));
    [destruct (filter_m (matches_query _) _) as [r1|]; [|done]|];
    cbv zeta;
    (destruct (get filters "tags") as [| | | |s|[|tag wanted]|tags]; try done;
     [ destruct (String.eqb s ""); [done|];
       by destruct (if truthy (get filters "endDate") then _ else _)
     | by destruct (filter_m (has_any_tag _) _)
     | destruct (to_number (get tags "length")) as [n|]; [|done];
       destruct (if truthy (get filters "endDate") then _ else _); [done|];
       by destruct (0 <? n)%Z ]).
Qed.

Lemma query_stage_some query l r :
  query_stage query l = Some r ->
  sublist r l /\
  forall c, c ∈ r <-> c ∈ l /\
    (truthy (VStr query) && truthy (VStr (trim query)) = true ->
     matches_query (toLowerCase query) c = Some true).
Proof.
  unfold query_stage. destruct (truthy (VStr query) && truthy (VStr (trim query))).
  - intros Hfilter. destruct (filter_m_some _ _ _ Hfilter) as [Hsub Hin].
    split; [done|]. intros c. rewrite Hin. split; [by intros [? ?]|]. intros [? Hm]. auto.
  - intros [= <-]. split; [done|]. intros c. split; [|by intros [? _]].
    intros ?. split; [done|discriminate].
Qed.

Lemma plain_filters_spec filters l :
  sublist (plain_filters filters l) l /\
  forall c, c ∈ plain_filters filters l <-> c ∈ l /\
    (truthy (get filters "provider") = true ->
     strict_eq (get c "provider") (get filters "provider") = true) /\
    (strict_eq (get filters "isFavorite") VUndefined = false ->
     strict_eq (get c "isFavorite") (get filters "isFavorite") = true) /\
    (truthy (get filters "startDate") = true ->
     js_ge (get c "timestamp") (get filters "startDate") = true) /\
    (truthy (get filters "endDate") = true ->
     js_le (get c "timestamp") (get filters "endDate") = true).
Proof.
  unfold plain_filters. cbv zeta.
  pose proof (filter_when (truthy (get filters "provider"))
    (fun conv => strict_eq (get conv "provider") (get filters "provider")) l) as H2.
  cbv zeta in H2. set (r2 := if truthy (get filters "provider") then _ else _) in *.
  pose proof (filter_when (negb (strict_eq (get filters "isFavorite") VUndefined))
    (fun conv => strict_eq (get conv "isFavorite") (get filters "isFavorite")) r2) as H3.
  cbv zeta in H3. set (r3 := if negb _ then _ else _) in *.
  pose proof (filter_when (truthy (get filters "startDate"))
    (fun conv => js_ge (get conv "timestamp") (get filters "startDate")) r3) as H4.
  cbv zeta in H4. set (r4 := if truthy (get filters "startDate") then _ else _) in *.
  pose proof (filter_when (truthy (get filters "endDate"))
    (fun conv => js_le (get conv "timestamp") (get filters "endDate")) r4) as H5.
  cbv zeta in H5.
  destruct H2 as [Hsub2 Hin2], H3 as [Hsub3 Hin3], H4 as [Hsub4 Hin4], H5 as [Hsub5 Hin5].
  split.
  - etrans; [exact Hsub5|]. etrans; [exact Hsub4|]. by etrans.
  - intros c. rewrite Hin5, Hin4, Hin3, Hin2, negb_true_iff. tauto.
Qed.

Lemma tags_stage_some filters l r :
  tags_stage filters l = Some r ->
  sublist r l /\
  forall c, c ∈ r <-> c ∈ l /\
    forall wanted, get filters "tags" = VArr wanted -> wanted <> [] ->
                   has_any_tag wanted c = Some true.
Proof.
  unfold tags_stage.
  assert ((forall wanted, get filters "tags" = VArr wanted -> wanted = []) ->
    Some l = Some r ->
    sublist r l /\
    forall c, c ∈ r <-> c ∈ l /\
      forall wanted, get filters "tags" = VArr wanted -> wanted <> [] ->
                     has_any_tag wanted c = Some true) as Hsame.
  { intros Hv [= <-]. split; [done|]. intros c. split; [|by intros [? _]].
    intros ?. split; [done|]. intros wanted Hw Hne. by destruct (Hne (Hv wanted Hw)). }
  destruct (get filters "tags") as [| | | |s|[|tag wanted]|tags] eqn:Htags.
  1-4, 6: by apply Hsame; intros ? [= <-].
  - destruct (String.eqb s ""); [|destruct l; [|done]]; by apply Hsame; intros ? [=].
  - intros Hfilter. destruct (filter_m_some _ _ _ Hfilter) as [Hsub Hin].
    split; [done|]. intros c. rewrite Hin. split.
    + intros [? Hm]. split; [done|]. by intros ? [= <-].
    + intros [? Hm]. split; [done|]. by apply Hm.
  - destruct (to_number (get tags "length")) as [n|]; [destruct l as [|c0 l']|];
      try (destruct (0 <? n)%Z; [done|]); by apply Hsame; intros ? [=].
Qed.

Lemma toLowerCase_unfold a r1 :
  toLowerCase (String a r1) =
    match r1 with
    | EmptyString => String (lower_char a) (toLowerCase r1)
    | String b r2 =>
        if String.eqb (String a (String b "")) (utf8 304)
        then "i" +:+ utf8 775 +:+ toLowerCase r2
        else
          match r2 with
          | EmptyString => String (lower_char a) (toLowerCase r1)
          | String c r3 =>
              if String.eqb (String a (String b (String c ""))) (utf8 8490)
              then String "k" (toLowerCase r3)
              else String (lower_char a) (toLowerCase r1)
          end
    end.
Proof. reflexivity. Qed.

Lemma ascii_lead a rest w :
  (nat_of_ascii a <? 128)%nat = true ->
  w = utf8 304 \/ w = utf8 8490 ->
  String.eqb (String a rest) w = false.
Proof.
  intros Ha [-> | ->];
    destruct a as [[] [] [] [] [] [] [] []]; try discriminate Ha; reflexivity.
Qed.

(** On ASCII text the lower case is the folding of the letters A-Z. *)
Lemma toLowerCase_ascii s : ascii_text s = true -> toLowerCase s = fold_case s.
Proof.
  unfold ascii_text. induction s as [|a s IH]; [done|]. cbn [str_all].
  intros [Ha Hs]%andb_true_iff. rewrite toLowerCase_unfold. cbn [fold_case].
  rewrite <- (IH Hs).
  destruct s as [|b [|c s]]; [done|..]; rewrite !(ascii_lead a) by auto; done.
Qed.

Lemma filter_m_defined {A} (p : A -> option bool) l r c :
  filter_m p l = Some r -> c ∈ l -> is_Some (p c).
Proof.
  revert r. induction l as [|x l IH]; intros r Hr Hc; [by inversion Hc|].
  cbn in Hr. destruct (p x) as [keep|] eqn:Hx; [|done].
  destruct (filter_m p l) as [r'|]; [|done].
  apply elem_of_cons in Hc as [->|Hc]; [by rewrite Hx|]. by eapply IH.
Qed.

Lemma lower_includes_spec v query b :
  ascii_text query = true ->
  (forall s, v = VStr s -> ascii_text s = true) ->
  lower_includes v (toLowerCase query) = Some b ->
  exists s, v = VStr s /\ b = str_includes (fold_case s) (fold_case query).
Proof.
  intros Hquery Hv. destruct v as [| | | |s| |]; try done. intros [= <-].
  exists s. by rewrite !toLowerCase_ascii by auto.
Qed.

Lemma some_m_spec query tags b :
  ascii_text query = true ->
  (forall s, VStr s ∈ tags -> ascii_text s = true) ->
  some_m (fun tag => lower_includes tag (toLowerCase query)) tags = Some b ->
  (b = true <->
   exists s, VStr s ∈ tags /\ str_includes (fold_case s) (fold_case query) = true).
Proof.
  intros Hquery. revert b. induction tags as [|tag tags IH]; intros b Htags; cbn [some_m].
  { intros [= <-]. split; [done|]. intros (s & Hs & _). by inversion Hs. }
  destruct (lower_includes tag (toLowerCase query)) as [found|] eqn:Htag; [|done].
  assert (forall s, tag = VStr s -> ascii_text s = true) as Htag_ascii.
  { intros s ->. apply Htags. by left. }
  destruct (lower_includes_spec _ _ _ Hquery Htag_ascii Htag) as (s & -> & ->).
  clear Htag Htag_ascii.
  destruct (str_includes (fold_case s) (fold_case query)) eqn:Hs; cbn [or_else].
  - intros [= <-]. split; [|done]. intros _. exists s. split; [by left|done].
  - intros Hrest. rewrite (IH b); [|intros t Ht; apply Htags; by right|done].
    split; intros (t & Ht & Hmatch).
    + exists t. split; [by right|done].
    + apply elem_of_cons in Ht as [[= ->]|Ht]; [congruence|]. by exists t.
Qed.

(** The query test of the code, where it returns, is the occurrence of the
    query in a searched string. *)
Lemma matches_query_spec query conv b :
  ascii_text query = true -> ascii_record conv = true ->
  matches_query (toLowerCase query) conv = Some b ->
  (b = true <-> text_matches query conv).
Proof.
  intros Hquery Hconv. unfold ascii_record in Hconv. rewrite forallb_forall in Hconv.
  assert (forall s, VStr s ∈ searched conv -> ascii_text s = true) as Hascii.
  { intros s Hs. apply list_elem_of_In in Hs. exact (Hconv _ Hs). }
  clear Hconv. unfold text_matches, matches_query. revert Hascii. unfold searched.
  generalize (get conv "title") (get conv "content") (get conv "notes") (get conv "tags").
  intros title content notes tags Hascii.
  destruct (lower_includes title (toLowerCase query)) as [b1|] eqn:H1; [|done].
  assert (forall s, title = VStr s -> ascii_text s = true) as Ha1.
  { intros s ->. apply Hascii, elem_of_app. left. repeat (first [by left|right]). }
  destruct (lower_includes_spec _ _ _ Hquery Ha1 H1) as (s1 & -> & ->). clear H1 Ha1.
  destruct (str_includes (fold_case s1) (fold_case query)) eqn:Hs1; cbn [or_else].
  { intros [= <-]. split; [|done]. intros _. exists s1. split; [|done].
    apply elem_of_app. left. by left. }
  destruct (lower_includes content (toLowerCase query)) as [b2|] eqn:H2; [|done].
  assert (forall s, content = VStr s -> ascii_text s = true) as Ha2.
  { intros s ->. apply Hascii, elem_of_app. left. repeat (first [by left|right]). }
  destruct (lower_includes_spec _ _ _ Hquery Ha2 H2) as (s2 & -> & ->). clear H2 Ha2.
  destruct (str_includes (fold_case s2) (fold_case query)) eqn:Hs2; cbn [or_else].
  { intros [= <-]. split; [|done]. intros _. exists s2. split; [|done].
    apply elem_of_app. left. right. by left. }
  destruct (lower_includes notes (toLowerCase query)) as [b3|] eqn:H3; [|done].
  assert (forall s, notes = VStr s -> ascii_text s = true) as Ha3.
  { intros s ->. apply Hascii, elem_of_app. left. repeat (first [by left|right]). }
  destruct (lower_includes_spec _ _ _ Hquery Ha3 H3) as (s3 & -> & ->). clear H3 Ha3.
  destruct (str_includes (fold_case s3) (fold_case query)) eqn:Hs3; cbn [or_else].
  { intros [= <-]. split; [|done]. intros _. exists s3. split; [|done].
    apply elem_of_app. left. right. right. by left. }
  destruct tags as [| | | | |tags|]; try done.
  intros Htags. apply some_m_spec in Htags; [|done|];
    last (intros s Hs; apply Hascii, elem_of_app; by right).
  rewrite Htags. split; intros (s & Hs & Hmatch); exists s; (split; [|done]).
  - apply elem_of_app. by right.
  - apply elem_of_app in Hs as [Hs|Hs]; [|done].
    repeat (apply elem_of_cons in Hs as [[= ->]|Hs]; [congruence|]). by inversion Hs.
Qed.

Lemma not_blank_truthy query :
  truthy (VStr query) && truthy (VStr (trim query)) = true <-> trim query <> "".
Proof.
  cbn [truthy]. rewrite andb_true_iff, !negb_true_iff. split.
  - intros [_ Htrim]. by destruct (String.eqb_spec (trim query) "").
  - intros Htrim. split; [|by destruct (String.eqb_spec (trim query) "")].
    destruct (String.eqb_spec query "") as [->|]; [done|done].
Qed.

Lemma start_date_criterion conv filters t :
  get conv "timestamp" = VNum t ->
  date_filter (get filters "startDate") = true ->
  (truthy (get filters "startDate") = true ->
   js_ge (get conv "timestamp") (get filters "startDate") = true) <->
  (forall d t', get filters "startDate" = VNum d -> d <> 0%Z ->
                get conv "timestamp" = VNum t' -> (d <= t')%Z).
Proof.
  intros -> Hdate. unfold date_filter in Hdate.
  destruct (get filters "startDate") as [| | |d| | |] eqn:Hd.
  4: { unfold js_ge. cbn [to_number truthy]. rewrite negb_true_iff, Z.eqb_neq, Z.leb_le.
       split.
       - intros Hle d' t' [= <-] Hne [= <-]. auto.
       - intros Hle Hne. by apply (Hle d t). }
  all: split; [intros _ d' t' Heq; discriminate Heq|];
    intros _ Htruthy; cbn [is_number orb] in Hdate; rewrite Htruthy in Hdate;
    discriminate Hdate.
Qed.

Lemma end_date_criterion conv filters t :
  get conv "timestamp" = VNum t ->
  date_filter (get filters "endDate") = true ->
  (truthy (get filters "endDate") = true ->
   js_le (get conv "timestamp") (get filters "endDate") = true) <->
  (forall d t', get filters "endDate" = VNum d -> d <> 0%Z ->
                get conv "timestamp" = VNum t' -> (t' <= d)%Z).
Proof.
  intros -> Hdate. unfold date_filter in Hdate.
  destruct (get filters "endDate") as [| | |d| | |] eqn:Hd.
  4: { unfold js_le. cbn [to_number truthy]. rewrite negb_true_iff, Z.eqb_neq, Z.leb_le.
       split.
       - intros Hle d' t' [= <-] Hne [= <-]. auto.
       - intros Hle Hne. by apply (Hle d t). }
  all: split; [intros _ d' t' Heq; discriminate Heq|];
    intros _ Htruthy; cbn [is_number orb] in Hdate; rewrite Htruthy in Hdate;
    discriminate Hdate.
Qed.

(** X12. For a query and stored texts within ASCII, stored timestamps that
    are numbers and date filters that are numbers or not set: a search
    reads and never writes; when it returns, its result holds exactly the
    stored conversations in which the query, when it is not blank, occurs
    (in the title, the content, the notes or a tag, the case of letters
    aside) and that pass every filter that is set, none more often than it
    is stored, ordered newest first. *)
Theorem search_returns_exactly_the_matches query filters w results w' :
  ascii_text query = true ->
  Forall (fun conv => ascii_record conv = true) (visible w) ->
  Forall (fun conv => is_number (get conv "timestamp") = true) (visible w) ->
  date_filter (get filters "startDate") = true ->
  date_filter (get filters "endDate") = true ->
  searchConversations query filters w = (Ok results, w') ->
  w' = w /\
  results ⊆+ visible w /\
  (forall c, c ∈ results <-> c ∈ visible w /\ meets_criteria query filters c) /\
  StronglySorted not_older results.
Proof.
  intros Hquery Hascii Hnumbers Hstart Hend. rewrite searchConversations_run. intros Hrun.
  destruct (query_stage query (visible w)) as [r1|] eqn:Hstage; [|done].
  destruct (tags_stage filters (plain_filters filters r1)) as [r6|] eqn:Htags; [|done].
  injection Hrun as <- <-. split; [done|].
  destruct (query_stage_some _ _ _ Hstage) as [Hsub1 Hin1].
  destruct (plain_filters_spec filters r1) as [Hsub2 Hin2].
  destruct (tags_stage_some _ _ _ Htags) as [Hsub3 Hin3].
  assert (sublist r6 (visible w)) as Hsub.
  { etrans; [exact Hsub3|]. by etrans. }
  rewrite Forall_forall in Hascii, Hnumbers.
  split; [|split].
  - apply submseteq_sublist_r. exists r6. split; [apply array_sort_perm|done].
  - intros c. rewrite array_sort_perm, Hin3, Hin2, Hin1. unfold meets_criteria.
    assert (c ∈ visible w -> exists t, get c "timestamp" = VNum t) as Hnumber.
    { intros Hc. specialize (Hnumbers c Hc). destruct (get c "timestamp"); try done.
      by eexists. }
    split.
    + intros [[[Hc Hq] (Hp & Hf & Hs & He)] Ht]. split; [done|].
      destruct (Hnumber Hc) as [t Hts].
      split; [|split; [done|split; [done|split; [|split; [|done]]]]].
      * intros Hblank. apply not_blank_truthy in Hblank. specialize (Hq Hblank).
        by apply (matches_query_spec query c true Hquery (Hascii c Hc) Hq).
      * by apply (start_date_criterion c filters t Hts Hstart).
      * by apply (end_date_criterion c filters t Hts Hend).
    + intros [Hc (Hq & Hp & Hf & Hs & He & Ht)].
      destruct (Hnumber Hc) as [t Hts].
      split; [|done]. split; [split; [done|]|].
      * intros Hblank.
        assert (is_Some (matches_query (toLowerCase query) c)) as [b Hb].
        { unfold query_stage in Hstage. rewrite Hblank in Hstage.
          by eapply filter_m_defined. }
        rewrite Hb. f_equal.
        apply (matches_query_spec query c b Hquery (Hascii c Hc) Hb).
        apply Hq. by apply not_blank_truthy.
      * split; [done|]. split; [done|]. split.
        -- by apply (start_date_criterion c filters t Hts Hstart).
        -- by apply (end_date_criterion c filters t Hts Hend).
  - apply array_sort_sorted. rewrite Forall_forall. intros c Hc.
    assert (c ∈ visible w) as Hin by (by eapply elem_of_sublist).
    specialize (Hnumbers c Hin). unfold dated, timestamp_of.
    by destruct (get c "timestamp").
Qed.

Lemma search_returns_exactly_the_matches_witness :
  let filters := [("provider", VStr "claude"); ("startDate", VNum 5)] in
  let results := [ tagged_record "conv_2_b" 30 ["js"; "rocq"];
                   tagged_record "conv_1_a" 10 ["rocq"; "proofs"] ] in
  ascii_text "TAG" = true /\
  Forall (fun conv => ascii_record conv = true) (visible tagged_world) /\
  Forall (fun conv => is_number (get conv "timestamp") = true) (visible tagged_world) /\
  date_filter (get filters "startDate") = true /\
  date_filter (get filters "endDate") = true /\
  searchConversations "TAG" filters tagged_world = (Ok results, tagged_world) /\
  tagged_world = tagged_world /\
  results ⊆+ visible tagged_world /\
  (forall c, c ∈ results <-> c ∈ visible tagged_world /\ meets_criteria "TAG" filters c) /\
  StronglySorted not_older results.
Proof.
  intros filters results.
  assert (Forall (fun conv => ascii_record conv = true) (visible tagged_world)) as Hascii
    by (repeat constructor).
  assert (Forall (fun conv => is_number (get conv "timestamp") = true) (visible tagged_world))
    as Hnumbers by (repeat constructor).
  assert (searchConversations "TAG" filters tagged_world = (Ok results, tagged_world))
    as Hrun by reflexivity.
  split; [reflexivity|]. split; [exact Hascii|]. split; [exact Hnumbers|].
  split; [reflexivity|]. split; [reflexivity|]. split; [exact Hrun|].
  exact (search_returns_exactly_the_matches "TAG" filters tagged_world results tagged_world
           eq_refl Hascii Hnumbers eq_refl eq_refl Hrun).
Defined.

(** * Further properties of the content script *)

(** ** Deduplication *)

Lemma deduplicate_sublist seen messages : sublist (deduplicate seen messages) messages.
Proof.
  revert seen. induction messages as [|m rest IH]; intros seen; cbn; [constructor|].
  case_bool_decide; by constructor.
Qed.

Lemma deduplicate_keys seen messages :
  NoDup (map message_key (deduplicate seen messages)) /\
  forall m, m ∈ deduplicate seen messages -> message_key m ∉ seen.
Proof.
  revert seen. induction messages as [|m rest IH]; intros seen; cbn.
  { split; [constructor|]. intros m Hm. by inversion Hm. }
  case_bool_decide as Hseen; [apply IH|].
  destruct (IH ({[message_key m]} ∪ seen)) as [Hnd Hout]. split.
  - cbn. constructor; [|done]. intros Hin.
    apply list_elem_of_fmap in Hin as (m' & Hkey & Hm').
    apply Hout in Hm'. apply Hm', elem_of_union. left.
    by apply elem_of_singleton.
  - intros m' [->|Hm']%elem_of_cons; [done|]. apply Hout in Hm'.
    intros Hin. apply Hm', elem_of_union. by right.
Qed.

Lemma deduplicate_covers seen messages m :
  m ∈ messages -> message_key m ∉ seen ->
  message_key m ∈ map message_key (deduplicate seen messages).
Proof.
  revert seen. induction messages as [|m' rest IH]; intros seen Hin Hout.
  { by inversion Hin. }
  cbn. destruct (decide (message_key m' = message_key m)) as [Heq|Hne].
  - rewrite bool_decide_eq_false_2 by (by rewrite Heq). cbn. rewrite Heq. by left.
  - apply elem_of_cons in Hin as [->|Hin]; [done|].
    case_bool_decide; [by apply IH|]. cbn. right. apply IH; [done|].
    intros [Hin'%elem_of_singleton|Hin']%elem_of_union; [congruence|done].
Qed.

Lemma deduplicate_fixed seen messages :
  NoDup (map message_key messages) ->
  (forall m, m ∈ messages -> message_key m ∉ seen) ->
  deduplicate seen messages = messages.
Proof.
  revert seen. induction messages as [|m rest IH]; intros seen Hnd Hout; [done|].
  cbn in Hnd |- *. apply NoDup_cons in Hnd as [Hfresh Hnd].
  rewrite bool_decide_eq_false_2 by (apply Hout; by left). f_equal.
  apply IH; [done|]. intros m' Hm'.
  assert (message_key m' <> message_key m) as Hne.
  { intros Heq. apply Hfresh. rewrite <- Heq. by apply list_elem_of_fmap_2. }
  specialize (Hout m' ltac:(by right)).
  intros [Hin'%elem_of_singleton|Hin']%elem_of_union; [congruence|done].
Qed.

(** X13. The deduplication pass keeps messages in their order, keeps one
    message for every key ([role:first 100 code units]) that occurs and no
    two with the same key, and run on its own output changes nothing. *)
Theorem deduplicate_keeps_first_of_each_key messages :
  let final := deduplicate ∅ messages in
  sublist final messages /\
  NoDup (map message_key final) /\
  (forall m, m ∈ messages -> message_key m ∈ map message_key final) /\
  deduplicate ∅ final = final.
Proof.
  intros final. destruct (deduplicate_keys ∅ messages) as [Hnd Hout].
  split; [apply deduplicate_sublist|]. split; [done|]. split.
  - intros m Hm. by apply deduplicate_covers.
  - by apply deduplicate_fixed.
Qed.

(** ** Clearing *)

Lemma clearAllConversations_run w :
  clearAllConversations w =
    ((if set_fails w then Throw BackendFailure else Ok true),
     written (if set_fails w then slot_conversations w else Some []) 0 0 w).
Proof.
  unfold clearAllConversations, try_catch, bind, storage_set_conversations, written, ret, throw.
  destruct (set_fails w); reflexivity.
Qed.

Lemma search_of_nothing query filters :
  query_stage query [] = Some [] /\
  tags_stage filters (plain_filters filters []) = Some [].
Proof.
  split.
  - unfold query_stage. by destruct (_ && _).
  - assert (plain_filters filters [] = []) as ->.
    { unfold plain_filters.
      by repeat match goal with |- context [if ?b then _ else _] => destruct b end. }
    unfold tags_stage.
    destruct (get filters "tags") as [| | | |s|[|tag wanted]|tags]; try done.
    + by destruct (String.eqb s "").
    + by destruct (to_number _).
Qed.

(** X14. Clearing empties the conversation list for every reader and
    leaves the settings alone: after a successful [clearAllConversations]
    the list read is empty, every search, whatever its query and filters,
    returns nothing, no tag is left, and [getSettings] returns what it
    returned before. *)
Theorem clear_empties_list_keeps_settings w :
  set_fails w = false ->
  exists w1,
    clearAllConversations w = (Ok true, w1) /\
    getAllConversations w1 = (Ok [], w1) /\
    (forall query filters, searchConversations query filters w1 = (Ok [], w1)) /\
    getAllTags w1 = (Ok [], w1) /\
    (getSettings w1).1 = (getSettings w).1.
Proof.
  intros Hset. rewrite clearAllConversations_run, Hset.
  eexists. split; [reflexivity|].
  assert (visible (written (Some []) 0 0 w) = []) as Hempty.
  { unfold visible, written. cbn. by destruct (get_fails w). }
  split; [by rewrite getAllConversations_run, Hempty|]. split.
  { intros query filters. rewrite searchConversations_run, Hempty.
    destruct (search_of_nothing query filters) as [-> ->]. reflexivity. }
  split.
  { unfold getAllTags, bind. by rewrite getAllConversations_run, Hempty. }
  by rewrite !getSettings_run.
Qed.

Lemma clear_empties_list_keeps_settings_witness :
  set_fails tagged_world = false /\
  exists w1,
    clearAllConversations tagged_world = (Ok true, w1) /\
    getAllConversations w1 = (Ok [], w1) /\
    (forall query filters, searchConversations query filters w1 = (Ok [], w1)) /\
    getAllTags w1 = (Ok [], w1) /\
    (getSettings w1).1 = (getSettings tagged_world).1.
Proof.
  split; [reflexivity|].
  exact (clear_empties_list_keeps_settings tagged_world eq_refl).
Defined.

(** ** Save, then delete *)

(** X15. Deleting what was just saved restores the list: on a working
    backend whose list stays below the capacity threshold and holds no
    conversation under the freshly generated id, [saveConversation]
    followed by [deleteConversation] of the returned id leaves exactly the
    conversations stored before, in their order. *)
Theorem save_then_delete_restores_list data w :
  nullish data = false ->
  get_fails w = false ->
  set_fails w = false ->
  (forall conv, conv ∈ visible w -> has_id (VStr (next_id w)) conv = false) ->
  usage_above_90 (serialized_size (visible w ++ [new_record data w])%list) = false ->
  exists record w1 w2,
    saveConversation data w = (Ok record, w1) /\
    deleteConversation (get record "id") w1 = (Ok true, w2) /\
    slot_conversations w2 = Some (visible w).
Proof.
  intros Hdata Hget Hset Hfresh Hroom.
  rewrite saveConversation_run, Hset by done.
  eexists _, _, _. split; [reflexivity|].
  rewrite deleteConversation_run. cbn [set_fails written]. rewrite Hset.
  split; [reflexivity|]. cbn [slot_conversations written]. f_equal.
  rewrite visible_written by done.
  unfold save_payload, checkAndCleanupStorage. rewrite Hroom. cbn [fst].
  rewrite new_record_id, List.filter_app. cbn [List.filter].
  replace (strict_eq (get (new_record data w) "id") (VStr (next_id w))) with true
    by (rewrite new_record_id; cbn; by rewrite String.eqb_refl).
  cbn [negb]. rewrite app_nil_r. apply filter_all_true.
  intros conv Hconv. unfold has_id in Hfresh. by rewrite Hfresh.
Qed.

Lemma save_then_delete_restores_list_witness :
  let w := world_with (Some (store_of "short")) in
  nullish sample_data = false /\
  get_fails w = false /\
  set_fails w = false /\
  (forall conv, conv ∈ visible w -> has_id (VStr (next_id w)) conv = false) /\
  usage_above_90 (serialized_size (visible w ++ [new_record sample_data w])%list) = false /\
  exists record w1 w2,
    saveConversation sample_data w = (Ok record, w1) /\
    deleteConversation (get record "id") w1 = (Ok true, w2) /\
    slot_conversations w2 = Some (visible w).
Proof.
  intros w.
  assert (forall conv, conv ∈ visible w -> has_id (VStr (next_id w)) conv = false)
    as Hfresh.
  { intros conv Hin. apply list_elem_of_In in Hin.
    destruct Hin as [<-|[<-|[]]]; reflexivity. }
  assert (usage_above_90 (serialized_size (visible w ++ [new_record sample_data w])%list)
          = false) as Hroom by (vm_compute; reflexivity).
  split; [reflexivity|]. split; [reflexivity|]. split; [reflexivity|].
  split; [exact Hfresh|]. split; [exact Hroom|].
  exact (save_then_delete_restores_list sample_data w eq_refl eq_refl eq_refl Hfresh Hroom).
Defined.

(** ** Plain markup *)

Lemma node_children_ind (P : node -> Prop) :
  (forall data, P (Text data)) ->
  (forall data, P (Comment data)) ->
  (forall kind tag attrs rendered shadow children,
     Forall P children -> P (Element kind tag attrs rendered shadow children)) ->
  forall n, P n.
Proof.
  intros Htext Hcomment Helement. fix IH 1.
  intros [data|data|kind tag attrs rendered shadow children].
  - apply Htext.
  - apply Hcomment.
  - apply Helement. revert children. fix IHchildren 1.
    intros [|c cs]; constructor; [apply IH|apply IHchildren].
Qed.

(** X16. Markup that holds no noise (hidden elements, scripts, navigation,
    buttons) and no styled element (code, emphasis, links, lists,
    paragraphs, line breaks), at any depth, renders to exactly its text
    content: wrappers such as [div] and [span] add nothing and lose
    nothing. *)
Theorem plain_markup_renders_its_text n :
  plain_markup n = true -> extractMarkdownFromElement n = textContent n.
Proof.
  induction n as [data|data|kind tag attrs rendered shadow children IH]
    using node_children_ind; intros Hplain; [done..|].
  cbn [plain_markup] in Hplain.
  apply andb_true_iff in Hplain as [[Hnoise Htags]%andb_true_iff Hchildren].
  apply negb_true_iff in Hnoise, Htags.
  unfold styled_tags in Htags. rewrite !has_tag_cons in Htags.
  repeat (apply orb_false_elim in Htags as [? Htags]).
  unfold_renderer. rewrite Hnoise.
  repeat match goal with H : String.eqb _ _ = false |- _ => rewrite H; clear H end.
  cbn [orb]. f_equal.
  clear Hnoise Htags. induction IH as [|c cs Hc _ IHcs]; [done|].
  cbn [forallb] in Hchildren. apply andb_true_iff in Hchildren as [Hplain Hrest].
  cbn [map]. f_equal; auto.
Qed.

Lemma plain_markup_renders_its_text_witness :
  let n := Element HTMLElement "DIV" [("class", "bubble")] (plain "Hello world") None
             [ Text "Hello "; Comment "marker";
               Element HTMLElement "SPAN" [] (plain "world") None [Text "world"] ] in
  plain_markup n = true /\ extractMarkdownFromElement n = textContent n.
Proof.
  intros n. split; [reflexivity|].
  exact (plain_markup_renders_its_text n eq_refl).
Defined.

(** ** Elements in their place *)

Lemma elements_under_tags parent passed n el t :
  el ∈ elements_under parent passed n ->
  t ∈ tags_upward (Loc n passed parent) ->
  t ∈ tags_upward el.
Proof.
  revert parent passed el.
  induction n as [data|data|kind tag attrs rendered shadow children IH]
    using node_children_ind; intros parent passed el Hin Ht.
  - by inversion Hin.
  - by inversion Hin.
  - cbn [elements_under] in Hin. apply elem_of_cons in Hin as [->|Hin]; [done|].
    revert Hin Ht.
    generalize (Loc (Element kind tag attrs rendered shadow children) passed parent) as me.
    intros me. generalize (@nil node).
    induction IH as [|c cs Hc _ IHcs]; intros passed' Hin Ht.
    + by inversion Hin.
    + apply elem_of_app in Hin as [Hin|Hin]; [|by eapply IHcs].
      eapply Hc; [exact Hin|]. cbn [tags_upward]. right. exact Ht.
Qed.

(** X17. Every element that [querySelectorAll] lists at or below a
    [user-query] element is classified User, whatever its own tag,
    attributes, text, position on the screen and index are. *)
Theorem elements_below_user_query_are_User parent passed n el innerWidth index :
  tag_of n = "user-query" ->
  el ∈ elements_under parent passed n ->
  detectRole innerWidth el index = Ok User.
Proof.
  intros Htag Hin.
  assert (is_Some (closest "user-query" el)) as Hclosest.
  { apply closest_tags_upward. eapply elements_under_tags; [exact Hin|].
    cbn [tags_upward]. rewrite Htag. by left. }
  unfold detectRole. rewrite (bool_decide_eq_true_2 _ Hclosest).
  by rewrite orb_true_r.
Qed.

Lemma elements_below_user_query_are_User_witness :
  let answer := Element HTMLElement "DIV" [("data-message-author-role", "assistant")]
                  (Layout "Gemini said" (Some (0 # 1))) None [Text "Gemini said"] in
  let section := Element HTMLElement "SECTION" [] (plain "Gemini said") None [answer] in
  let n := Element HTMLElement "USER-QUERY" [] (plain "Gemini said") None [section] in
  let el := Loc answer [] (Some (Loc section [] (Some (Loc n [] None)))) in
  tag_of n = "user-query" /\
  el ∈ elements_under None [] n /\
  detectRole 1024 el 1 = Ok User.
Proof.
  intros answer section n el.
  assert (el ∈ elements_under None [] n) as Hin.
  { right. right. left. }
  split; [reflexivity|]. split; [exact Hin|].
  exact (elements_below_user_query_are_User None [] n el 1024 1 eq_refl Hin).
Defined.

(** ** Conversation extractor *)

Lemma container_messages_not_nil ai ms : container_messages ai = Ok ms -> ms <> [].
Proof.
  unfold container_messages.
  destruct (skip_short (parentElement ai)) as [[p|]|e]; cbn [mbind outcome_bind]; [| |done].
  - destruct (inner_text (self_of p)); cbn [mbind outcome_bind]; [|done].
    intros [= <-]. by destruct (negb _).
  - by intros [= <-].
Qed.

Lemma deduplicate_not_nil m messages : deduplicate ∅ (m :: messages) <> [].
Proof. cbn [deduplicate]. by rewrite bool_decide_eq_false_2 by apply not_elem_of_empty. Qed.

Lemma fallback_messages_nil all :
  fallback_messages all = Ok [] <-> List.filter is_answer_container all = [].
Proof.
  unfold fallback_messages.
  destruct (List.filter is_answer_container all) as [|ai rest]; [done|].
  cbn [for_each]. split; [|done].
  destruct (container_messages ai) as [ms|e] eqn:Hai; cbn [mbind outcome_bind]; [|done].
  apply container_messages_not_nil in Hai.
  destruct (for_each _ _ rest); cbn [mbind outcome_bind]; [|done].
  intros [= Hnil]. by apply app_eq_nil in Hnil as [? _].
Qed.

(** X18. The message extraction ends without a message (the export returns
    [null]) exactly when the primary scan completes without a message and
    no element of the page, shadow trees included, is a rendered-answer
    container ([.markdown], [.prose], [.ds-markdown]). *)
Theorem export_fails_only_without_content innerWidth root :
  exported_messages innerWidth root = Ok None <->
  primary_messages innerWidth (getDeepElements root) = Ok [] /\
  List.filter is_answer_container (getDeepElements root) = [].
Proof.
  unfold exported_messages, collect_messages.
  set (all := getDeepElements root).
  destruct (primary_messages innerWidth all) as [[|m rest]|e]; cbn [mbind outcome_bind].
  - cbn [length Nat.eqb]. rewrite <- fallback_messages_nil.
    destruct (fallback_messages all) as [[|m rest]|e]; cbn [mbind outcome_bind].
    + done.
    + pose proof (deduplicate_not_nil m rest) as Hfinal.
      destruct (deduplicate ∅ (m :: rest)); [done|]. cbn. split; [done|]. by intros [_ ?].
    + split; [done|]. by intros [_ ?].
  - cbn [length Nat.eqb mbind outcome_bind].
    pose proof (deduplicate_not_nil m rest) as Hfinal.
    destruct (deduplicate ∅ (m :: rest)); [done|]. cbn. split; [done|]. by intros [? _].
  - split; [done|]. by intros [? _].
Qed.

Lemma for_each_member {A B} (f : nat -> A -> outcome (list B)) i arr out m :
  for_each f i arr = Ok out -> m ∈ out ->
  exists j x pushed, arr !! j = Some x /\ f (i + j)%nat x = Ok pushed /\ m ∈ pushed.
Proof.
  revert i out. induction arr as [|x arr IH]; intros i out; cbn [for_each].
  { intros [= <-] Hm. by inversion Hm. }
  destruct (f i x) as [pushed|e] eqn:Hx; cbn [mbind outcome_bind]; [|done].
  destruct (for_each f (S i) arr) as [later|e] eqn:Hlater; cbn [mbind outcome_bind]; [|done].
  intros [= <-] [Hm|Hm]%elem_of_app.
  - exists 0%nat, x, pushed. by rewrite Nat.add_0_r.
  - destruct (IH _ _ Hlater Hm) as (j & y & ms & Hj & Hy & Hin).
    exists (S j), y, ms. by rewrite Nat.add_succ_r.
Qed.

Lemma block_messages_spec innerWidth i el pushed m :
  block_messages innerWidth i el = Ok pushed -> m ∈ pushed ->
  detectRole innerWidth el i = Ok (message_role m) /\
  message_content m =
    trim (extractMarkdownFromElement
            (default (self_of el) (querySelector content_selector (self_of el)))) /\
  (2 < js_length (message_content m))%nat.
Proof.
  unfold block_messages.
  destruct (detectRole innerWidth el i) as [role|e]; cbn [mbind outcome_bind]; [|done].
  destruct (negb _ && _) eqn:Hkeep; intros [= <-]; [|by inversion 1].
  intros ->%list_elem_of_singleton. apply andb_true_iff in Hkeep as [_ Hlong].
  by apply Nat.ltb_lt in Hlong.
Qed.

(** X19. When the primary scan captures anything, every exported message
    stems from one candidate block: its role is what [detectRole] returns
    for that block at its position among the blocks, and its content is the
    trimmed rendering of the block's content element, of more than two code
    units. *)
Theorem primary_export_is_trimmed_blocks innerWidth root final :
  exported_messages innerWidth root = Ok (Some final) ->
  primary_messages innerWidth (getDeepElements root) <> Ok [] ->
  exists blocks,
    filter_by is_block (getDeepElements root) = Ok blocks /\
    forall m, m ∈ final ->
      exists i el,
        blocks !! i = Some el /\
        detectRole innerWidth el i = Ok (message_role m) /\
        message_content m =
          trim (extractMarkdownFromElement
                  (default (self_of el) (querySelector content_selector (self_of el)))) /\
        (2 < js_length (message_content m))%nat.
Proof.
  unfold exported_messages, collect_messages, primary_messages.
  set (all := getDeepElements root). intros Hfinal Hprimary.
  destruct (filter_by is_block all) as [blocks|e]; cbn [mbind outcome_bind] in *; [|done].
  exists blocks. split; [done|]. intros m Hm.
  destruct (for_each (block_messages innerWidth) 0 blocks) as [messages|e] eqn:Hscan;
    cbn [mbind outcome_bind] in Hfinal; [|done].
  destruct (length messages =? 0)%nat eqn:Hlen.
  { apply Nat.eqb_eq in Hlen. by destruct messages. }
  cbn [mbind outcome_bind] in Hfinal.
  destruct (length (deduplicate ∅ messages) =? 0)%nat; [done|].
  injection Hfinal as <-.
  eapply elem_of_sublist in Hm; [|apply deduplicate_sublist].
  destruct (for_each_member _ _ _ _ _ Hscan Hm) as (i & el & pushed & Hel & Hpushed & Hin).
  exists i, el. split; [done|]. by eapply block_messages_spec.
Qed.

Lemma primary_export_is_trimmed_blocks_witness :
  let final := [ Message User "Hello"; Message Assistant "Hi there";
                 Message User "How are you?"; Message Assistant "Good, thanks" ] in
  exported_messages 1024 fixture_page = Ok (Some final) /\
  primary_messages 1024 (getDeepElements fixture_page) <> Ok [] /\
  exists blocks,
    filter_by is_block (getDeepElements fixture_page) = Ok blocks /\
    forall m, m ∈ final ->
      exists i el,
        blocks !! i = Some el /\
        detectRole 1024 el i = Ok (message_role m) /\
        message_content m =
          trim (extractMarkdownFromElement
                  (default (self_of el) (querySelector content_selector (self_of el)))) /\
        (2 < js_length (message_content m))%nat.
Proof.
  intros final.
  assert (exported_messages 1024 fixture_page = Ok (Some final)) as Hfinal
    by (vm_compute; reflexivity).
  assert (primary_messages 1024 (getDeepElements fixture_page) <> Ok []) as Hprimary
    by (vm_compute; discriminate).
  split; [exact Hfinal|]. split; [exact Hprimary|].
  exact (primary_export_is_trimmed_blocks 1024 fixture_page final Hfinal Hprimary).
Defined.

(** ** Page metadata *)

Lemma fold_case_app a b : fold_case (a +:+ b) = fold_case a +:+ fold_case b.
Proof.
  induction a as [|c a IH]; [by rewrite !str_app_nil_l|].
  rewrite str_app_cons. cbn [fold_case]. by rewrite str_app_cons, IH.
Qed.

Lemma id_run_app id rest :
  id_run id = id -> id_run rest = "" -> id_run (id +:+ rest) = id.
Proof.
  induction id as [|c id IH]; intros Hid Hrest; [by rewrite str_app_nil_l|].
  rewrite str_app_cons. cbn [id_run] in Hid |- *.
  destruct (is_id_char c); [|done]. f_equal. apply IH; [congruence|done].
Qed.

(** The capture behind a literal that starts with [a], after text in which
    [a] does not occur in either case. *)
Lemma capture_id_after a literal before id rest :
  fold_case (String a literal) = String a literal ->
  str_all (fun c => negb (Ascii.eqb a (lower_char c))) before = true ->
  id <> "" -> id_run id = id -> id_run rest = "" ->
  capture_id (String a literal) (before +:+ String a literal +:+ id +:+ rest) = id.
Proof.
  intros Hlower Hclear Hne Hid Hrest. induction before as [|c before IH].
  - rewrite str_app_nil_l, str_app_cons. cbn [capture_id]. rewrite <- str_app_cons.
    rewrite fold_case_app, Hlower, startsWith_app, str_drop_app, id_run_app by done.
    by destruct (String.eqb_spec id "").
  - cbn [str_all] in Hclear. apply andb_true_iff in Hclear as [Hc Hclear].
    apply negb_true_iff in Hc.
    rewrite str_app_cons. cbn [capture_id fold_case startsWith]. rewrite Hc.
    cbn [andb]. by apply IH.
Qed.

(** X20. The conversation id of a ChatGPT, Claude or DeepSeek conversation
    URL is recovered: for a non-empty id of letters, digits and hyphens
    that ends where the URL ends or at any other character (a query string,
    a fragment, a slash), provider detection on the host followed by id
    extraction on the URL gives back exactly the id. *)
Theorem conversation_id_recovered hash id rest :
  id <> "" -> id_run id = id -> id_run rest = "" ->
  extractConversationId hash ("https://chatgpt.com/c/" +:+ id +:+ rest)
                        (detectProvider "chatgpt.com") = id /\
  extractConversationId hash ("https://claude.ai/chat/" +:+ id +:+ rest)
                        (detectProvider "claude.ai") = id /\
  extractConversationId hash ("https://chat.deepseek.com/chat/" +:+ id +:+ rest)
                        (detectProvider "chat.deepseek.com") = id.
Proof.
  intros Hne Hid Hrest. repeat split.
  - change (capture_id "chatgpt.com/c/" ("https://" +:+ "chatgpt.com/c/" +:+ id +:+ rest) = id).
    by apply capture_id_after.
  - change (capture_id "claude.ai/chat/" ("https://" +:+ "claude.ai/chat/" +:+ id +:+ rest) = id).
    by apply capture_id_after.
  - change (capture_id "deepseek.com/chat/"
              ("https://chat." +:+ "deepseek.com/chat/" +:+ id +:+ rest) = id).
    by apply capture_id_after.
Qed.

Lemma conversation_id_recovered_witness :
  let id := "6f1c-42ab" in
  let rest := "?model=gpt-4" in
  id <> "" /\ id_run id = id /\ id_run rest = "" /\
  extractConversationId "" ("https://chatgpt.com/c/" +:+ id +:+ rest)
                        (detectProvider "chatgpt.com") = id /\
  extractConversationId "" ("https://claude.ai/chat/" +:+ id +:+ rest)
                        (detectProvider "claude.ai") = id /\
  extractConversationId "" ("https://chat.deepseek.com/chat/" +:+ id +:+ rest)
                        (detectProvider "chat.deepseek.com") = id.
Proof.
  intros id rest.
  assert (id <> "") as Hne by discriminate.
  split; [exact Hne|]. split; [reflexivity|]. split; [reflexivity|].
  exact (conversation_id_recovered "" id rest Hne eq_refl eq_refl).
Defined.

Lemma str_all_impl (p q : ascii -> bool) s :
  (forall c, p c = true -> q c = true) -> str_all p s = true -> str_all q s = true.
Proof.
  intros Himpl. induction s as [|c s IH]; [done|]. cbn [str_all].
  intros [Hc Hs]%andb_true_iff. by rewrite (Himpl c Hc), IH.
Qed.









